(** * HPLRender, [analyze.py]: binning, per-bin statistics, best bin

    A shallow embedding of the functions of [analyze.py]
    ([binResultsBy], [minMaxAvgPerBin], [getBestBin] and the main
    program) and the properties of them that the specification states.

    Modelling choices.
    - A Python [dict] keeps its items in insertion order and the code
      depends on that order (iteration over [items()], [keys()], and the
      stable sort of the keys), so a dict is an association list whose
      keys are pairwise distinct; [dict_wf] is that invariant.
    - Keys have a decidable equality (Python's [==]/[hash] on the values
      the getters return).
    - A number is a Python [int] (unbounded) or a finite [float], the
      latter given by its exact rational value.  Python compares numbers
      by value, also an [int] with a [float]; [min], [max] and the sort
      use [<] only.  [statistics.mean] sums the data exactly, divides by
      the count, and converts the exact mean to the type of the data:
      it is kept when all data are [int] and it is integral, and it is
      rounded to the nearest binary64 value (ties to even) otherwise,
      with [OverflowError] when the rounded value is out of range.  NaN,
      infinities and the sign of zero are not modelled.
    - Python exceptions are the [Raise] branch of [result]. *)

From Stdlib Require Import QArith Qround Qpower Qabs Lqa Lia.
From stdpp Require Import base list sorting strings.

(** ** Exceptions and the error monad *)

Inductive exn : Set :=
| ValueError        (* min() / max() of an empty sequence *)
| StatisticsError   (* statistics.mean of no data points *)
| OverflowError     (* the mean is too large for a float *)
| IndexError        (* sequence index out of range *)
| TypeError.        (* subscript of None *)

Inductive result (A : Type) : Type :=
| Ok (a : A)
| Raise (e : exn).
Arguments Ok {A} a.
Arguments Raise {A} e.

Definition rbind {A B} (m : result A) (k : A → result B) : result B :=
  match m with
  | Ok a => k a
  | Raise e => Raise e
  end.

Notation "'try!' x := m 'in' k" := (rbind m (λ x, k))
  (at level 10, x name, m at level 100, k at level 200).

Fixpoint rmapM {A B} (g : A → result B) (l : list A) : result (list B) :=
  match l with
  | [] => Ok []
  | x :: l' => try! y := g x in try! ys := rmapM g l' in Ok (y :: ys)
  end.

(** ** Numbers *)

Inductive num : Set :=
| PyInt (z : Z)     (* an int *)
| PyFloat (x : Q).  (* a finite float, by its exact value *)

Definition num_val (v : num) : Q :=
  match v with
  | PyInt z => inject_Z z
  | PyFloat x => x
  end.

Definition is_int (v : num) : bool :=
  match v with
  | PyInt _ => true
  | PyFloat _ => false
  end.

(** Rational comparison as the code uses it: a boolean [<]. *)
Definition Qltb (x y : Q) : bool :=
  match (x ?= y)%Q with
  | Lt => true
  | _ => false
  end.

(** [a < b] on numbers. *)
Definition num_ltb (a b : num) : bool := Qltb (num_val a) (num_val b).

(** ** Conversion of an exact rational to a float

    [float(Fraction(n, d))] is [n / d] on integers: the binary64 value
    nearest to the quotient, ties to even, and [OverflowError] when that
    value would be [2 ** 1024] or more in magnitude. *)

Definition pow2 (e : Z) : Q := (2 ^ e)%Q.

(** Nearest integer, ties to even. *)
Definition rne (q : Q) : Z :=
  let f := Qfloor q in
  match (q - inject_Z f ?= 1 # 2)%Q with
  | Lt => f
  | Gt => (f + 1)%Z
  | Eq => if Z.even f then f else (f + 1)%Z
  end.

(** For [0 < q]: the [e] with [2 ^ e <= q < 2 ^ (e + 1)]. *)
Definition float_exponent (q : Q) : Z :=
  let e0 := (Z.log2 (Qnum q) - Z.log2 (Zpos (Qden q)))%Z in
  if Qle_bool (pow2 e0) q then e0 else (e0 - 1)%Z.

(** The exponent of the spacing of the binary64 values around [q]:
    53 significant bits, and [2 ^ -1074] at the subnormal values. *)
Definition ulp_exponent (q : Q) : Z := Z.max (float_exponent q - 52) (-1074).

Definition round_pos (q : Q) : Q :=
  (inject_Z (rne (q / pow2 (ulp_exponent q))) * pow2 (ulp_exponent q))%Q.

(** Rounding to binary64 with an unbounded exponent range above. *)
Definition round_float (q : Q) : Q :=
  match (q ?= 0)%Q with
  | Eq => 0%Q
  | Gt => round_pos q
  | Lt => (- round_pos (- q))%Q
  end.

Definition int_true_divide (q : Q) : result Q :=
  let r := round_float q in
  if Qle_bool (pow2 1024) (Qabs r) then Raise OverflowError else Ok r.

(** [x] is the value of a finite binary64 float. *)
Definition is_double (x : Q) : Prop :=
  (round_float x == x)%Q ∧ (Qabs x < pow2 1024)%Q.

(** ** Python builtins on lists of numbers *)

(** [min(contents)]: the first smallest item; [ValueError] when empty. *)
Definition py_min (contents : list num) : result num :=
  match contents with
  | [] => Raise ValueError
  | x :: rest =>
      Ok (fold_left (λ cur it, if num_ltb it cur then it else cur) rest x)
  end.

(** [max(contents)]: the first largest item; [ValueError] when empty. *)
Definition py_max (contents : list num) : result num :=
  match contents with
  | [] => Raise ValueError
  | x :: rest =>
      Ok (fold_left (λ cur it, if num_ltb cur it then it else cur) rest x)
  end.

Definition Qsum (l : list Q) : Q := fold_left Qplus l 0%Q.

Definition count (l : list Q) : Q := inject_Z (Z.of_nat (length l)).

(** The exact mean of the data: the fraction [total / n]. *)
Definition exact_mean (data : list num) : Q :=
  (Qsum (num_val <$> data) / count (num_val <$> data))%Q.

(** [value.denominator == 1] for the fraction [q]. *)
Definition Qis_integral (q : Q) : bool := (Qden (Qred q) =? 1)%positive.

(** [statistics.mean(data)]: [StatisticsError] when there is no data
    point; else the exact mean, converted to the type of the data. *)
Definition statistics_mean (data : list num) : result num :=
  match data with
  | [] => Raise StatisticsError
  | _ =>
      let value := exact_mean data in
      if forallb is_int data && Qis_integral value
      then Ok (PyInt (Qnum (Qred value)))
      else try! x := int_true_divide value in Ok (PyFloat x)
  end.

(** ** [list.sort(key=..., reverse=...)]

    The sort is stable and compares the precomputed keys with [<] only.
    With [reverse=True] the list is reversed, sorted ascending and
    reversed again, which keeps items of equal key in their original
    order.  Any stable sort returns the same list; insertion from the
    right is the one written here. *)

Section Sort.
Context {A : Type}.

Fixpoint sort_insert (x : A * num) (l : list (A * num)) : list (A * num) :=
  match l with
  | [] => [x]
  | y :: l' => if num_ltb y.2 x.2 then y :: sort_insert x l' else x :: y :: l'
  end.

Definition stable_sort (l : list (A * num)) : list (A * num) :=
  foldr sort_insert [] l.

Definition list_sort (key : A → result num) (reverse : bool) (l : list A)
  : result (list A) :=
  try! keyed := rmapM (λ x, try! k := key x in Ok (x, k)) l in
  Ok (if reverse then (list.reverse (stable_sort (list.reverse keyed))).*1
      else (stable_sort keyed).*1).
End Sort.

(** ** Dictionaries in insertion order *)

Section Dict.
Context {K : Type} `{EqDecision K} {V : Type}.

Definition dict_keys (d : list (K * V)) : list K := d.*1.

Definition dict_wf (d : list (K * V)) : Prop := NoDup (dict_keys d).

(** [d.get(k)] *)
Fixpoint dict_get (k : K) (d : list (K * V)) : option V :=
  match d with
  | [] => None
  | (k', v) :: d' => if decide (k = k') then Some v else dict_get k d'
  end.

(** [d[k] = v]: in place when [k] is present, a new last item otherwise. *)
Fixpoint dict_set (k : K) (v : V) (d : list (K * V)) : list (K * V) :=
  match d with
  | [] => [(k, v)]
  | (k', v') :: d' =>
      if decide (k = k') then (k', v) :: d' else (k', v') :: dict_set k v d'
  end.

(** In-place mutation of the value stored under [k]. *)
Fixpoint dict_mutate (g : V → V) (k : K) (d : list (K * V)) : list (K * V) :=
  match d with
  | [] => []
  | (k', v) :: d' =>
      if decide (k = k') then (k', g v) :: d' else (k', v) :: dict_mutate g k d'
  end.
End Dict.

(** ** The three functions of [analyze.py] *)

(* For minMaxAvgPerBin *)
Definition MMAMin : nat := 0.
Definition MMAMax : nat := 1.
Definition MMAAvg : nat := 2.

(** Subscript of the 3-tuple [(min, max, avg)]. *)
Definition tuple_getitem (t : num * num * num) (i : nat) : result num :=
  match i with
  | 0 => Ok t.1.1
  | 1 => Ok t.1.2
  | 2 => Ok t.2
  | _ => Raise IndexError
  end.

Section Analyze.
Context {K : Type} `{EqDecision K} {R : Type}.

(** [defaultdict(list).__getitem__]: a missing key is first stored with
    an empty list, as the last item. *)
Definition defaultdict_missing (k : K) (d : list (K * list R)) : list (K * list R) :=
  match dict_get k d with
  | Some _ => d
  | None => d ++ [(k, [])]
  end.

(** One iteration of the loop of [binResultsBy]:
    [binnedResults[binningFunction(result)].append(result)]. *)
Definition bin_step (binningFunction : R → K)
    (binnedResults : list (K * list R)) (result : R) : list (K * list R) :=
  let key := binningFunction result in
  dict_mutate (λ l, l ++ [result]) key (defaultdict_missing key binnedResults).

Definition binResultsBy (results : list R) (binningFunction : R → K)
  : list (K * list R) :=
  fold_left (bin_step binningFunction) results [].

(** The loop of [minMaxAvgPerBin] over [binnedResults.items()], with the
    dictionary [results] built so far. *)
Fixpoint minMaxAvg_loop (statFunction : R → num) (items : list (K * list R))
    (results : list (K * (num * num * num)))
  : result (list (K * (num * num * num))) :=
  match items with
  | [] => Ok results
  | (key, contents) :: items' =>
      let contents := map statFunction contents in
      try! mn := py_min contents in
      try! mx := py_max contents in
      try! avg := statistics_mean contents in
      minMaxAvg_loop statFunction items' (dict_set key (mn, mx, avg) results)
  end.

Definition minMaxAvgPerBin (binnedResults : list (K * list R))
    (statFunction : R → num) : result (list (K * (num * num * num))) :=
  minMaxAvg_loop statFunction binnedResults [].

Definition getBestBin (binnedResults : list (K * list R))
    (statFunction : R → num) (lowerIsBetter : bool) : result K :=
  try! minMaxAvg := minMaxAvgPerBin binnedResults statFunction in
  let bins := dict_keys minMaxAvg in
  try! bins := list_sort
                 (λ x, match dict_get x minMaxAvg with
                       | Some t => tuple_getitem t MMAAvg
                       | None => Raise TypeError
                       end)
                 (negb lowerIsBetter) bins in
  match bins with
  | [] => Raise IndexError
  | best :: _ => Ok best
  end.
End Analyze.

(** ** Notions used to state the properties *)

Section Measures.
Context {K : Type} `{EqDecision K} {R : Type}.

(** [m] is the mean the code computes for the records [l]. *)
Definition mean_of (statFunction : R → num) (l : list R) (m : num) : Prop :=
  statistics_mean (statFunction <$> l) = Ok m.

(** The code computes a mean for the records [l]. *)
Definition has_mean (statFunction : R → num) (l : list R) : Prop :=
  ∃ m, mean_of statFunction l m.

(** [t] is the triple the code computes for the records [l]. *)
Definition bin_stats (statFunction : R → num) (l : list R)
    (t : num * num * num) : Prop :=
  py_min (statFunction <$> l) = Ok t.1.1 ∧
  py_max (statFunction <$> l) = Ok t.1.2 ∧
  statistics_mean (statFunction <$> l) = Ok t.2.

(** The key function of the sort, [lambda x: minMaxAvg.get(x)[MMAAvg]],
    paired with its argument. *)
Definition avg_keyed (d : list (K * (num * num * num))) (x : K)
  : result (K * num) :=
  try! k := match dict_get x d with
            | Some t => tuple_getitem t MMAAvg
            | None => Raise TypeError
            end in
  Ok (x, k).
End Measures.

(** [better lowerIsBetter a b]: the mean [a] is strictly preferable to [b]. *)
Definition better (lowerIsBetter : bool) (a b : Q) : Prop :=
  if lowerIsBetter then (a < b)%Q else (b < a)%Q.

(** ** Scenarios *)

(** The scenario of the specification. *)
Module Scenario.
Record sample : Set := { nb : Z; time : num }.

Definition r1 : sample := {| nb := 4; time := PyInt 10 |}.
Definition r2 : sample := {| nb := 4; time := PyInt 20 |}.
Definition r3 : sample := {| nb := 8; time := PyInt 5 |}.

Definition results : list sample := [r1; r2; r3].
Definition bins : list (Z * list sample) := binResultsBy results nb.
End Scenario.

(** Floats: the values [0.1], [0.2], [0.3], and two bins whose exact means
    differ while the means the code computes are both [0.2]. *)
Module Floats.
Definition f01 : Q := 3602879701896397 # 36028797018963968.
Definition f02 : Q := 3602879701896397 # 18014398509481984.
Definition f03 : Q := 5404319552844595 # 18014398509481984.

Definition bins : list (Z * list num) :=
  [ (2%Z, [PyFloat f02]);
    (1%Z, [PyFloat f01; PyFloat f02; PyFloat f03]) ].

End Floats.
(** ** The main program

    The parts of the main program that are not in [analyze.py] are taken
    as parameters: the parser [rend.rendData], the getters of [HPLResult]
    (as binning functions they give a key, as statistics a number), the
    text functions [str] and [pprint.pformat], and whether the file
    system lets [open(path, 'w')] succeed.  [argparse] is represented by
    its result: the namespace of the arguments, with the check of
    [choices] (an option value outside the keys of [NameToGetter] ends
    the program before anything else happens).  Writing, printing and
    closing are taken to succeed. *)

(** The getters the table names, as the function objects they are. *)
Inductive getter : Set :=
| getEncodedTime | getN | getNB | getP | getTime | getGflops.

#[global] Instance getter_eq_dec : EqDecision getter.
Proof. solve_decision. Defined.

(** maps names of properties of HPLResult to getters for HPLResult. *)
Definition NameToGetter : list (string * getter) :=
  [ ("encodedtime", getEncodedTime);
    ("n", getN);
    ("nb", getNB);
    ("p", getP);
    ("time", getTime);
    ("gflops", getGflops) ]%string.

(** The namespace [parser.parse_args()] returns; [output] is [None] when
    [-o] is not given. *)
Record Namespace : Set := {
  input : string;
  bin : string;
  statistic : string;
  output : option string;
  verbose : bool
}.

(** What the program does to the outside, in order. *)
Inductive event : Set :=
| EvOpen (path : string)      (* open(path, 'w') *)
| EvFileLine (line : string)  (* outFile.write(line + newline) *)
| EvPrint (line : string)     (* print(line) *)
| EvClose.                    (* outFile.close() *)

(** How the program ends when it does not reach its last line. *)
Inductive failure : Set :=
| InvalidChoice            (* argparse rejects [--bin] or [--statistic] *)
| RendFailed               (* [rend.rendData] raised *)
| AnalysisRaised (e : exn)  (* one of the three functions raised *)
| OpenFailed.              (* [open(args.output, 'w')] raised *)

(** [if args.output:] a missing or empty value is false. *)
Definition output_path (o : option string) : option string :=
  match o with
  | Some EmptyString => None
  | Some path => Some path
  | None => None
  end.

(** [write(x)], with [x] already turned into text: to the file when one was
    opened, else to the standard output. *)
Definition write (outFile : option string) (x : string) : list event :=
  match outFile with
  | Some _ => [EvFileLine x]
  | None => [EvPrint x]
  end.

Definition line_of (ev : event) : option string :=
  match ev with
  | EvFileLine x | EvPrint x => Some x
  | EvOpen _ | EvClose => None
  end.

(** The lines of text of a run, whatever their destination. *)
Definition lines_of (trace : list event) : list string := omap line_of trace.

Section Main.
Context {K : Type} `{EqDecision K} {R : Type}.
Variable rendData : string → option (list R).
Variable keyOf : getter → R → K.
Variable valueOf : getter → R → num.
Variable str : K → string.
Variable pformat_bins : list (K * list R) → string.
Variable pformat_stats : list (K * (num * num * num)) → string.
Variable can_open : string → bool.

(** The program from [outFile = None] to its end. *)
Definition report (args : Namespace) (binnedResults : list (K * list R))
    (minMaxAvg : list (K * (num * num * num))) (bestBin : K) : list event :=
  let outFile := output_path (output args) in
  let write := write outFile in
  (match outFile with Some path => [EvOpen path] | None => [] end)
  ++ write ("Results for " +:+ input args)
  ++ (if verbose args
      then write "Arguments to HPLResult are defined as follows:"
           ++ write "Encoded time, N, NB, P, Q, Time, Gigaflops, Start time, End time"
      else [])
  ++ write EmptyString
  ++ write ("Results are binned by " +:+ bin args)
  ++ write EmptyString
  ++ (if verbose args
      then write "Binned results"
           ++ write (pformat_bins binnedResults)
           ++ write EmptyString
      else [])
  ++ write ("Minimum, maximum, and average " +:+ statistic args +:+ " per bin")
  ++ write (pformat_stats minMaxAvg)
  ++ write EmptyString
  ++ write ("Best bin with respect to " +:+ statistic args)
  ++ write (str bestBin)
  ++ (match outFile with Some _ => [EvClose] | None => [] end).

(** The main program: its events and how it ends ([None]: normally). *)
Definition main (args : Namespace) : list event * option failure :=
  match dict_get (bin args) NameToGetter, dict_get (statistic args) NameToGetter with
  | Some binFunc, Some statFunc =>
      match rendData (input args) with
      | None => ([], Some RendFailed)
      | Some results =>
          let binnedResults := binResultsBy results (keyOf binFunc) in
          match minMaxAvgPerBin binnedResults (valueOf statFunc) with
          | Raise e => ([], Some (AnalysisRaised e))
          | Ok minMaxAvg =>
              match getBestBin binnedResults (valueOf statFunc)
                      (bool_decide (statFunc = getTime)) with
              | Raise e => ([], Some (AnalysisRaised e))
              | Ok bestBin =>
                  match output_path (output args) with
                  | Some path =>
                      if can_open path
                      then (report args binnedResults minMaxAvg bestBin, None)
                      else ([], Some OpenFailed)
                  | None => (report args binnedResults minMaxAvg bestBin, None)
                  end
              end
          end
      end
  | _, _ => ([], Some InvalidChoice)
  end.
End Main.

(** A run of the main program on the scenario of the specification. *)
Module MainScenario.
Definition rendData (file : string) : option (list Scenario.sample) :=
  Some Scenario.results.
Definition keyOf (g : getter) (r : Scenario.sample) : Z := Scenario.nb r.
Definition valueOf (g : getter) (r : Scenario.sample) : num := Scenario.time r.
Definition str (k : Z) : string := if decide (k = 8%Z) then "8" else "4".
Definition pformat_bins (d : list (Z * list Scenario.sample)) : string := "{bins}".
Definition pformat_stats (d : list (Z * (num * num * num))) : string := "{stats}".
Definition can_open (path : string) : bool := true.

Definition run : Namespace → list event * option failure :=
  main rendData keyOf valueOf str pformat_bins pformat_stats can_open.

Definition to_file : Namespace :=
  {| input := "hpl.out"; bin := "nb"; statistic := "time";
     output := Some "report.txt"%string; verbose := false |}.
Definition quiet_to_screen : Namespace :=
  {| input := "hpl.out"; bin := "nb"; statistic := "time";
     output := None; verbose := false |}.
Definition to_screen : Namespace :=
  {| input := "hpl.out"; bin := "nb"; statistic := "time";
     output := None; verbose := true |}.

(** Two bins of equal mean. *)
Definition tied : list (Z * list Scenario.sample) :=
  [ (8%Z, [ {| Scenario.nb := 8; Scenario.time := PyInt 7 |} ]);
    (4%Z, [ {| Scenario.nb := 4; Scenario.time := PyInt 7 |} ]) ].
End MainScenario.

(** ** Facts about dictionaries *)

Section DictFacts.
Context {K : Type} `{EqDecision K} {V : Type}.
Implicit Types (k : K) (v : V) (d : list (K * V)).

Lemma dict_get_None k d : dict_get k d = None ↔ k ∉ dict_keys d.
Proof.
  unfold dict_keys. induction d as [|[k' v'] d IH]; simpl.
  - split; [intros _; apply not_elem_of_nil | done].
  - rewrite not_elem_of_cons. destruct (decide (k = k')); [|tauto].
    split; [done | intros [? _]; done].
Qed.

Lemma dict_get_elem_of k v d : dict_get k d = Some v → (k, v) ∈ d.
Proof.
  induction d as [|[k' v'] d IH]; simpl; [done|].
  destruct (decide (k = k')) as [->|_].
  - intros [= ->]. left.
  - intros Hg. right. auto.
Qed.

Lemma dict_get_wf k v d : dict_wf d → (k, v) ∈ d → dict_get k d = Some v.
Proof.
  unfold dict_wf, dict_keys. induction d as [|[k' v'] d IH]; simpl.
  - intros _ Hin. by apply elem_of_nil in Hin.
  - rewrite NoDup_cons. intros [Hk Hnd] Hin.
    apply elem_of_cons in Hin as [[= -> ->]|Hin].
    + by rewrite decide_True.
    + rewrite decide_False; [auto|].
      intros ->. apply Hk. apply (list_elem_of_fmap_2 fst _ _ Hin).
Qed.

Lemma dict_get_is_Some k d : k ∈ dict_keys d → is_Some (dict_get k d).
Proof.
  intros Hin. destruct (dict_get k d) eqn:Hg; [by eexists|].
  by apply dict_get_None in Hg.
Qed.

Lemma dict_get_snoc k k' v d :
  dict_get k (d ++ [(k', v)])
  = match dict_get k d with
    | Some x => Some x
    | None => if decide (k = k') then Some v else None
    end.
Proof.
  induction d as [|[k'' v''] d IH]; simpl; [done|].
  by destruct (decide (k = k'')).
Qed.

Lemma dict_get_mutate g k k' d :
  dict_get k (dict_mutate g k' d)
  = if decide (k = k') then g <$> dict_get k d else dict_get k d.
Proof.
  induction d as [|[k'' v''] d IH]; simpl; [by destruct (decide (k = k'))|].
  destruct (decide (k' = k'')) as [->|Hne]; simpl.
  - destruct (decide (k = k'')); simpl; [done|]. done.
  - destruct (decide (k = k'')) as [->|]; simpl.
    + by rewrite decide_False.
    + done.
Qed.

Lemma dict_keys_mutate g k d : dict_keys (dict_mutate g k d) = dict_keys d.
Proof.
  unfold dict_keys. induction d as [|[k' v'] d IH]; simpl; [done|].
  destruct (decide (k = k')); rewrite !fmap_cons; simpl; [done|]. by rewrite IH.
Qed.

Lemma dict_set_fresh k v d : k ∉ dict_keys d → dict_set k v d = d ++ [(k, v)].
Proof.
  unfold dict_keys. induction d as [|[k' v'] d IH]; simpl; [done|].
  rewrite not_elem_of_cons. intros [Hne Hnin].
  rewrite decide_False; [|done]. by rewrite IH.
Qed.

Lemma dict_set_not_nil k v d : dict_set k v d ≠ [].
Proof. destruct d as [|[k' v'] d]; simpl; [done|]. by destruct (decide (k = k')). Qed.

Lemma dict_keys_app d1 d2 : dict_keys (d1 ++ d2) = dict_keys d1 ++ dict_keys d2.
Proof. apply fmap_app. Qed.
End DictFacts.

(** ** [binResultsBy]: what each bin holds *)

Section BinFacts.
Context {K : Type} `{EqDecision K} {R : Type}.
Implicit Types (k : K) (r : R) (l results : list R) (d : list (K * list R)).
Implicit Types (binningFunction : R → K).

Lemma binResultsBy_snoc results r binningFunction :
  binResultsBy (results ++ [r]) binningFunction
  = bin_step binningFunction (binResultsBy results binningFunction) r.
Proof. unfold binResultsBy. by rewrite fold_left_app. Qed.

Lemma dict_keys_missing k d :
  dict_keys (defaultdict_missing k d)
  = if dict_get k d is Some _ then dict_keys d else dict_keys d ++ [k].
Proof.
  unfold defaultdict_missing. destruct (dict_get k d); [done|].
  by rewrite dict_keys_app.
Qed.

Lemma defaultdict_missing_wf k d : dict_wf d → dict_wf (defaultdict_missing k d).
Proof.
  unfold dict_wf. rewrite dict_keys_missing.
  destruct (dict_get k d) eqn:Hg; [done|]. intros Hnd.
  apply NoDup_app. split_and!; [done| |apply NoDup_singleton].
  intros x Hx ->%list_elem_of_singleton. by apply dict_get_None in Hg.
Qed.

Lemma binResultsBy_wf results binningFunction :
  dict_wf (binResultsBy results binningFunction).
Proof.
  induction results as [|r results IH] using rev_ind.
  - apply NoDup_nil_2.
  - rewrite binResultsBy_snoc. unfold bin_step, dict_wf.
    rewrite dict_keys_mutate. by apply defaultdict_missing_wf.
Qed.

(** The bin stored under [k] is the input filtered by key [k], and a key
    is stored only when that filter is non-empty. *)
Lemma binResultsBy_get results binningFunction k :
  dict_get k (binResultsBy results binningFunction)
  = match filter (λ r, binningFunction r = k) results with
    | [] => None
    | l => Some l
    end.
Proof.
  induction results as [|r results IH] using rev_ind; [done|].
  rewrite binResultsBy_snoc, filter_app. unfold bin_step.
  rewrite dict_get_mutate. unfold defaultdict_missing.
  destruct (decide (k = binningFunction r)) as [->|Hne].
  - rewrite (filter_cons_True _ r []) by done. rewrite filter_nil.
    rewrite IH.
    destruct (filter _ results) as [|r0 l] eqn:Hf; simpl.
    + rewrite dict_get_snoc, IH. by rewrite decide_True.
    + by rewrite IH.
  - rewrite (filter_cons_False _ r []) by done. rewrite filter_nil, app_nil_r.
    destruct (dict_get (binningFunction r) _); [done|].
    rewrite dict_get_snoc, IH.
    destruct (filter _ results); [by rewrite decide_False|done].
Qed.

Lemma binResultsBy_elem_of results binningFunction k l :
  (k, l) ∈ binResultsBy results binningFunction ↔
  l = filter (λ r, binningFunction r = k) results ∧ l ≠ [].
Proof.
  split.
  - intros Hin. apply dict_get_wf in Hin; [|apply binResultsBy_wf].
    rewrite binResultsBy_get in Hin.
    destruct (filter _ results); [done|]. by injection Hin as <-.
  - intros [-> Hne]. apply dict_get_elem_of. rewrite binResultsBy_get.
    by destruct (filter _ results).
Qed.

Lemma concat_mutate_append k r d :
  k ∈ dict_keys d →
  concat (dict_mutate (λ l, l ++ [r]) k d).*2 ≡ₚ r :: concat d.*2.
Proof.
  unfold dict_keys. induction d as [|[k' l'] d IH]; simpl.
  - intros Hin. by apply elem_of_nil in Hin.
  - intros Hin. destruct (decide (k = k')) as [->|Hne]; rewrite !fmap_cons; simpl.
    + rewrite <-app_assoc. simpl. by rewrite <-Permutation_middle.
    + apply elem_of_cons in Hin as [?|Hin]; [done|].
      rewrite IH by done. by rewrite <-Permutation_middle.
Qed.

Lemma binResultsBy_concat results binningFunction :
  concat (binResultsBy results binningFunction).*2 ≡ₚ results.
Proof.
  induction results as [|r results IH] using rev_ind; [done|].
  rewrite binResultsBy_snoc. unfold bin_step.
  rewrite concat_mutate_append.
  - unfold defaultdict_missing.
    destruct (dict_get _ _).
    + rewrite IH. by rewrite <-Permutation_cons_append.
    + rewrite fmap_app, concat_app. simpl. rewrite !app_nil_r, IH.
      by rewrite <-Permutation_cons_append.
  - rewrite dict_keys_missing.
    destruct (dict_get _ _) eqn:Hg.
    + apply dict_get_elem_of in Hg.
      apply (list_elem_of_fmap_2 fst _ _ Hg).
    + apply elem_of_app. right. apply list_elem_of_singleton. done.
Qed.
End BinFacts.

(** ** Facts about [min], [max] and sums *)

Section NumberFacts.
Open Scope Q_scope.

Lemma Qltb_lt x y : Qltb x y = true ↔ x < y.
Proof. unfold Qltb. rewrite Qlt_alt. destruct (x ?= y); intuition congruence. Qed.

Lemma Qltb_ge x y : Qltb x y = false ↔ y <= x.
Proof.
  rewrite <-not_true_iff_false, Qltb_lt. split.
  - apply Qnot_lt_le.
  - intros Hle Hlt. by apply (Qlt_not_le _ _ Hlt).
Qed.

Lemma num_ltb_lt a b : num_ltb a b = true ↔ num_val a < num_val b.
Proof. apply Qltb_lt. Qed.

Lemma num_ltb_ge a b : num_ltb a b = false ↔ num_val b <= num_val a.
Proof. apply Qltb_ge. Qed.

Lemma fold_min_spec rest x :
  let m := fold_left (λ cur it, if num_ltb it cur then it else cur) rest x in
  m ∈ x :: rest ∧ ∀ v, v ∈ x :: rest → num_val m <= num_val v.
Proof.
  revert x. induction rest as [|y rest IH]; intros x; simpl.
  - split; [left|]. intros v ->%list_elem_of_singleton. apply Qle_refl.
  - destruct (num_ltb y x) eqn:Hlt.
    + destruct (IH y) as [Hin Hle]. split; [by right|].
      intros v [->|Hv]%elem_of_cons; [|by apply Hle].
      apply Qle_trans with (num_val y); [apply Hle; left|].
      by apply Qlt_le_weak, num_ltb_lt.
    + destruct (IH x) as [Hin Hle]. split.
      * apply elem_of_cons in Hin as [->|Hin]; [left|by do 2 right].
      * intros v [->|[->|Hv]%elem_of_cons]%elem_of_cons.
        -- apply Hle. left.
        -- apply Qle_trans with (num_val x); [apply Hle; left|]. by apply num_ltb_ge.
        -- apply Hle. by right.
Qed.

Lemma fold_max_spec rest x :
  let m := fold_left (λ cur it, if num_ltb cur it then it else cur) rest x in
  m ∈ x :: rest ∧ ∀ v, v ∈ x :: rest → num_val v <= num_val m.
Proof.
  revert x. induction rest as [|y rest IH]; intros x; simpl.
  - split; [left|]. intros v ->%list_elem_of_singleton. apply Qle_refl.
  - destruct (num_ltb x y) eqn:Hlt.
    + destruct (IH y) as [Hin Hle]. split; [by right|].
      intros v [->|Hv]%elem_of_cons; [|by apply Hle].
      apply Qle_trans with (num_val y); [|apply Hle; left].
      by apply Qlt_le_weak, num_ltb_lt.
    + destruct (IH x) as [Hin Hle]. split.
      * apply elem_of_cons in Hin as [->|Hin]; [left|by do 2 right].
      * intros v [->|[->|Hv]%elem_of_cons]%elem_of_cons.
        -- apply Hle. left.
        -- apply Qle_trans with (num_val x); [|apply Hle; left]. by apply num_ltb_ge.
        -- apply Hle. by right.
Qed.

Lemma py_min_spec contents mn :
  py_min contents = Ok mn →
  mn ∈ contents ∧ ∀ v, v ∈ contents → num_val mn <= num_val v.
Proof.
  destruct contents as [|x rest]; simpl; [done|].
  intros [= <-]. apply fold_min_spec.
Qed.

Lemma py_max_spec contents mx :
  py_max contents = Ok mx →
  mx ∈ contents ∧ ∀ v, v ∈ contents → num_val v <= num_val mx.
Proof.
  destruct contents as [|x rest]; simpl; [done|].
  intros [= <-]. apply fold_max_spec.
Qed.

Lemma py_min_Ok contents : contents ≠ [] → ∃ mn, py_min contents = Ok mn.
Proof. destruct contents; [done|]. intros _. by eexists. Qed.

Lemma py_max_Ok contents : contents ≠ [] → ∃ mx, py_max contents = Ok mx.
Proof. destruct contents; [done|]. intros _. by eexists. Qed.

Lemma count_cons x l : count (x :: l) == count l + 1.
Proof.
  unfold count. simpl length. rewrite Nat2Z.inj_succ, <-Z.add_1_r.
  rewrite inject_Z_plus. reflexivity.
Qed.

Lemma count_pos x l : 0 < count (x :: l).
Proof.
  unfold count. change 0 with (inject_Z 0). rewrite <-Zlt_Qlt.
  simpl length. lia.
Qed.

Lemma fold_sum_lower a l acc :
  (∀ v, v ∈ l → a <= v) → acc + a * count l <= fold_left Qplus l acc.
Proof.
  revert acc. induction l as [|x l IH]; intros acc Hall; simpl.
  - change (count []) with 0. lra.
  - eapply Qle_trans; [|apply IH; intros v Hv; apply Hall; by right].
    rewrite count_cons. assert (a <= x) by (apply Hall; left). lra.
Qed.

Lemma fold_sum_upper a l acc :
  (∀ v, v ∈ l → v <= a) → fold_left Qplus l acc <= acc + a * count l.
Proof.
  revert acc. induction l as [|x l IH]; intros acc Hall; simpl.
  - change (count []) with 0. lra.
  - eapply Qle_trans; [apply IH; intros v Hv; apply Hall; by right|].
    rewrite count_cons. assert (x <= a) by (apply Hall; left). lra.
Qed.

(** The exact mean lies between any bounds of the values. *)
Lemma mean_bounds (vals : list Q) mn mx :
  vals ≠ [] →
  (∀ v, v ∈ vals → mn <= v) →
  (∀ v, v ∈ vals → v <= mx) →
  mn <= Qsum vals / count vals <= mx.
Proof.
  destruct vals as [|x l]; [done|]. intros _ Hlo Hhi.
  pose proof (count_pos x l) as Hpos.
  pose proof (fold_sum_lower mn (x :: l) 0 Hlo) as Hl.
  pose proof (fold_sum_upper mx (x :: l) 0 Hhi) as Hu.
  fold (Qsum (x :: l)) in Hl, Hu. split.
  - apply Qle_shift_div_l; [done|]. lra.
  - apply Qle_shift_div_r; [done|]. lra.
Qed.

Lemma exact_mean_bounds (data : list num) mn mx :
  data ≠ [] →
  (∀ v, v ∈ data → mn <= num_val v <= mx) →
  mn <= exact_mean data <= mx.
Proof.
  intros Hne Hall. apply mean_bounds.
  - by destruct data.
  - intros q (v & -> & Hv)%list_elem_of_fmap. by apply Hall.
  - intros q (v & -> & Hv)%list_elem_of_fmap. by apply Hall.
Qed.
End NumberFacts.

(** ** Facts about the rounding to binary64 *)

Section RoundFacts.
Open Scope Q_scope.

Lemma pow2_pos e : 0 < pow2 e.
Proof. apply Qpower_0_lt. reflexivity. Qed.

Lemma pow2_plus a b : pow2 (a + b) == pow2 a * pow2 b.
Proof. apply Qpower_plus. discriminate. Qed.

Lemma pow2_le a b : (a <= b)%Z → pow2 a <= pow2 b.
Proof. intros H. apply Qpower_le_compat_l; [done|discriminate]. Qed.

Lemma pow2_lt a b : (a < b)%Z → pow2 a < pow2 b.
Proof. intros H. apply Qpower_lt_compat_l; [done|reflexivity]. Qed.

Lemma pow2_lt_inv a b : pow2 a < pow2 b → (a < b)%Z.
Proof. intros H. eapply Qpower_lt_compat_l_inv; [exact H|reflexivity]. Qed.

Lemma pow2_Z n : (0 <= n)%Z → pow2 n == inject_Z (2 ^ n).
Proof. intros H. unfold pow2. by rewrite (Zpower_Qpower 2 n H). Qed.

Lemma pow2_div a b : pow2 (a - b) == pow2 a / pow2 b.
Proof.
  pose proof (pow2_pos b) as Hb.
  assert (pow2 a == pow2 (a - b) * pow2 b) as ->.
  { rewrite <-pow2_plus. by replace (a - b + b)%Z with a by lia. }
  field. intros H0. rewrite H0 in Hb. by apply Qlt_irrefl in Hb.
Qed.

(** rne *)
Lemma rne_bounds q : (Qfloor q <= rne q <= Qfloor q + 1)%Z.
Proof.
  unfold rne. destruct (_ ?= _); [destruct (Z.even _)|..]; lia.
Qed.

Lemma rne_Z z : rne (inject_Z z) = z.
Proof.
  unfold rne. rewrite Qfloor_Z.
  assert (inject_Z z - inject_Z z == 0) as -> by ring. reflexivity.
Qed.

Lemma rne_mono q1 q2 : q1 <= q2 → (rne q1 <= rne q2)%Z.
Proof.
  intros Hle. pose proof (Qfloor_resp_le _ _ Hle) as Hf.
  pose proof (rne_bounds q1). pose proof (rne_bounds q2).
  destruct (Z.eq_dec (Qfloor q1) (Qfloor q2)) as [Heq|Hne]; [|lia].
  unfold rne in *. rewrite <-Heq in *. clear H H0 Hf Heq.
  set (f := Qfloor q1).
  destruct (q1 - inject_Z f ?= 1 # 2) eqn:H1;
    destruct (q2 - inject_Z f ?= 1 # 2) eqn:H2; try destruct (Z.even f); try lia;
    exfalso;
    first [apply Qeq_alt in H1 | apply Qlt_alt in H1 | apply Qgt_alt in H1];
    first [apply Qeq_alt in H2 | apply Qlt_alt in H2 | apply Qgt_alt in H2];
    lra.
Qed.

Lemma rne_ge_Z z q : inject_Z z <= q → (z <= rne q)%Z.
Proof. intros H. rewrite <-(rne_Z z). by apply rne_mono. Qed.

Lemma rne_le_Z z q : q <= inject_Z z → (rne q <= z)%Z.
Proof. intros H. rewrite <-(rne_Z z). by apply rne_mono. Qed.

Lemma inject_Z_pos z : (0 < z)%Z → 0 < inject_Z z.
Proof. intros H. change 0 with (inject_Z 0). by rewrite <-Zlt_Qlt. Qed.

Lemma float_exponent_spec q :
  0 < q → pow2 (float_exponent q) <= q < pow2 (float_exponent q + 1).
Proof.
  intros Hq. destruct q as [n d].
  assert (0 < n)%Z as Hn.
  { unfold Qlt in Hq. simpl in Hq. lia. }
  unfold float_exponent. cbn [Qnum Qden].
  set (a := Z.log2 n). set (b := Z.log2 (Z.pos d)).
  destruct (Z.log2_spec n Hn) as [Ha1 Ha2]. fold a in Ha1, Ha2.
  destruct (Z.log2_spec (Z.pos d)) as [Hb1 Hb2]; [done|]. fold b in Hb1, Hb2.
  assert (0 <= a)%Z as Ha0 by apply Z.log2_nonneg.
  assert (0 <= b)%Z as Hb0 by apply Z.log2_nonneg.
  rewrite Zle_Qle, <-pow2_Z in Ha1, Hb1 by done.
  rewrite Zlt_Qlt, <-pow2_Z in Ha2, Hb2 by lia.
  assert (n # d == inject_Z n / inject_Z (Z.pos d)) as Hnd by apply Qmake_Qdiv.
  pose proof (inject_Z_pos (Z.pos d) eq_refl) as Hd.
  set (q := n # d) in *. set (N := inject_Z n) in *. set (D := inject_Z (Z.pos d)) in *.
  assert (q * D == N) as HqD.
  { rewrite Hnd. field. intros H0. rewrite H0 in Hd. by apply Qlt_irrefl in Hd. }
  pose proof (pow2_pos (a - b)) as Hp0.
  pose proof (pow2_pos (a - b - 1)) as Hp1.
  pose proof (pow2_pos (a - b + 1)) as Hp2.
  pose proof (pow2_pos b) as Hpb.
  assert (q < pow2 (a - b + 1)) as Hupper.
  { assert (pow2 (Z.succ a) == pow2 (a - b + 1) * pow2 b) as Hs.
    { rewrite <-pow2_plus. by replace (a - b + 1 + b)%Z with (Z.succ a) by lia. }
    rewrite Hs in Ha2. destruct (Qlt_le_dec q (pow2 (a - b + 1))) as [|Hge]; [done|].
    exfalso. nra. }
  assert (pow2 (a - b - 1) <= q) as Hlower.
  { assert (pow2 a == pow2 (a - b - 1) * pow2 (Z.succ b)) as Hs.
    { rewrite <-pow2_plus. by replace (a - b - 1 + Z.succ b)%Z with a by lia. }
    rewrite Hs in Ha1. destruct (Qlt_le_dec q (pow2 (a - b - 1))) as [Hlt|]; [|done].
    exfalso. pose proof (pow2_pos (Z.succ b)). nra. }
  destruct (Qle_bool (pow2 (a - b)) q) eqn:Hcmp.
  - apply Qle_bool_iff in Hcmp. by split.
  - split; [done|]. replace (a - b - 1 + 1)%Z with (a - b)%Z by lia.
    apply Qnot_le_lt. intros Hle. apply Qle_bool_iff in Hle. congruence.
Qed.

Lemma float_exponent_mono q1 q2 :
  0 < q1 → q1 <= q2 → (float_exponent q1 <= float_exponent q2)%Z.
Proof.
  intros H1 Hle. assert (0 < q2) as H2 by lra.
  destruct (float_exponent_spec q1 H1) as [Hl1 _].
  destruct (float_exponent_spec q2 H2) as [_ Hu2].
  assert (pow2 (float_exponent q1) < pow2 (float_exponent q2 + 1)) as Hlt by lra.
  apply pow2_lt_inv in Hlt. lia.
Qed.

Lemma ulp_exponent_mono q1 q2 :
  0 < q1 → q1 <= q2 → (ulp_exponent q1 <= ulp_exponent q2)%Z.
Proof.
  intros H1 Hle. pose proof (float_exponent_mono q1 q2 H1 Hle).
  unfold ulp_exponent. lia.
Qed.

Lemma pow2_split E x :
  (x <= E)%Z → pow2 E == inject_Z (2 ^ (E - x)) * pow2 x.
Proof.
  intros H. rewrite <-pow2_Z by lia. rewrite <-pow2_plus.
  by replace (E - x + x)%Z with E by lia.
Qed.

Lemma Qdiv_pow2_le q r x : q <= r * pow2 x ↔ q / pow2 x <= r.
Proof.
  pose proof (pow2_pos x) as Hx. split; intros H.
  - apply Qle_shift_div_r; [done|]. done.
  - assert (q == q / pow2 x * pow2 x) as ->.
    { field. intros H0. rewrite H0 in Hx. by apply Qlt_irrefl in Hx. }
    apply Qmult_le_compat_r; [done|]. by apply Qlt_le_weak.
Qed.

Lemma Qdiv_pow2_ge q r x : r * pow2 x <= q ↔ r <= q / pow2 x.
Proof.
  pose proof (pow2_pos x) as Hx. split; intros H.
  - by apply Qle_shift_div_l.
  - assert (q == q / pow2 x * pow2 x) as ->.
    { field. intros H0. rewrite H0 in Hx. by apply Qlt_irrefl in Hx. }
    apply Qmult_le_compat_r; [done|]. by apply Qlt_le_weak.
Qed.

Lemma round_pos_ge_pow2 q E :
  (ulp_exponent q <= E)%Z → pow2 E <= q → pow2 E <= round_pos q.
Proof.
  intros Hx Hle. unfold round_pos. set (x := ulp_exponent q) in *.
  rewrite (pow2_split E x Hx) in Hle |- *.
  apply Qmult_le_compat_r; [|apply Qlt_le_weak, pow2_pos].
  rewrite <-Zle_Qle. apply rne_ge_Z. by apply Qdiv_pow2_ge.
Qed.

Lemma round_pos_le_pow2 q E :
  (ulp_exponent q <= E)%Z → q <= pow2 E → round_pos q <= pow2 E.
Proof.
  intros Hx Hle. unfold round_pos. set (x := ulp_exponent q) in *.
  rewrite (pow2_split E x Hx) in Hle |- *.
  apply Qmult_le_compat_r; [|apply Qlt_le_weak, pow2_pos].
  rewrite <-Zle_Qle. apply rne_le_Z. by apply Qdiv_pow2_le.
Qed.

Lemma round_pos_nonneg q : 0 <= q → 0 <= round_pos q.
Proof.
  intros Hq. unfold round_pos. apply Qmult_le_0_compat; [|apply Qlt_le_weak, pow2_pos].
  change 0 with (inject_Z 0). rewrite <-Zle_Qle. apply rne_ge_Z.
  apply Qle_shift_div_l; [apply pow2_pos|]. change (inject_Z 0) with 0. lra.
Qed.

Lemma round_pos_mono q1 q2 : 0 < q1 → q1 <= q2 → round_pos q1 <= round_pos q2.
Proof.
  intros H1 Hle. assert (0 < q2) as H2 by lra.
  pose proof (ulp_exponent_mono q1 q2 H1 Hle) as Hx.
  destruct (Z.eq_dec (ulp_exponent q1) (ulp_exponent q2)) as [Heq|Hne].
  - unfold round_pos. rewrite Heq.
    apply Qmult_le_compat_r; [|apply Qlt_le_weak, pow2_pos].
    rewrite <-Zle_Qle. apply rne_mono.
    apply Qmult_le_compat_r; [done|]. apply Qlt_le_weak, Qinv_lt_0_compat, pow2_pos.
  - destruct (float_exponent_spec q1 H1) as [_ Hu1].
    destruct (float_exponent_spec q2 H2) as [Hl2 _].
    unfold ulp_exponent in Hx, Hne.
    apply Qle_trans with (pow2 (float_exponent q2)).
    + apply round_pos_le_pow2; [unfold ulp_exponent; lia|].
      apply Qle_trans with (pow2 (float_exponent q1 + 1)); [lra|].
      apply pow2_le. lia.
    + apply round_pos_ge_pow2; [unfold ulp_exponent; lia|done].
Qed.

Lemma round_float_mono q1 q2 : q1 <= q2 → round_float q1 <= round_float q2.
Proof.
  intros Hle. unfold round_float.
  destruct (q1 ?= 0) eqn:C1; destruct (q2 ?= 0) eqn:C2;
    first [apply Qeq_alt in C1 | apply Qlt_alt in C1 | apply Qgt_alt in C1];
    first [apply Qeq_alt in C2 | apply Qlt_alt in C2 | apply Qgt_alt in C2];
    try (exfalso; lra).
  - lra.
  - apply round_pos_nonneg. lra.
  - pose proof (round_pos_nonneg (- q1)). lra.
  - assert (round_pos (- q2) <= round_pos (- q1)); [|lra].
    apply round_pos_mono; lra.
  - pose proof (round_pos_nonneg (- q1)). pose proof (round_pos_nonneg q2). lra.
  - by apply round_pos_mono.
Qed.

Lemma round_float_proper q1 q2 : q1 == q2 → round_float q1 == round_float q2.
Proof.
  intros Heq. apply Qle_antisym; apply round_float_mono; lra.
Qed.
Lemma round_between mn mx q :
  is_double mn → is_double mx → mn <= q <= mx →
  mn <= round_float q <= mx ∧ Qabs (round_float q) < pow2 1024.
Proof.
  intros [Hmn Bmn] [Hmx Bmx] [Hlo Hhi].
  pose proof (round_float_mono _ _ Hlo) as H1.
  pose proof (round_float_mono _ _ Hhi) as H2.
  rewrite Hmn in H1. rewrite Hmx in H2. split; [by split|].
  apply Qabs_Qlt_condition. apply Qabs_Qlt_condition in Bmn, Bmx. lra.
Qed.

Lemma round_pos_grid q m :
  q == inject_Z m * pow2 (ulp_exponent q) → round_pos q == q.
Proof.
  intros Hq. unfold round_pos.
  assert (q / pow2 (ulp_exponent q) == inject_Z m) as Hdiv.
  { pose proof (pow2_pos (ulp_exponent q)) as Hp. rewrite Hq at 1.
    field. intros H0. rewrite H0 in Hp. by apply Qlt_irrefl in Hp. }
  assert (rne (q / pow2 (ulp_exponent q)) = m) as ->.
  { apply Z.le_antisymm; [apply rne_le_Z|apply rne_ge_Z]; lra. }
  by rewrite <-Hq.
Qed.

Lemma round_pos_int z : (0 < z <= 2 ^ 53)%Z → round_pos (inject_Z z) == inject_Z z.
Proof.
  intros [Hz Hle]. destruct (Z.eq_dec z (2 ^ 53)%Z) as [->|Hne].
  { vm_compute. reflexivity. }
  assert (z < 2 ^ 53)%Z as Hlt by lia.
  pose proof (inject_Z_pos z Hz) as Hq.
  destruct (float_exponent_spec (inject_Z z) Hq) as [Hl _].
  assert (pow2 (float_exponent (inject_Z z)) < pow2 53) as He.
  { eapply Qle_lt_trans; [done|]. rewrite pow2_Z by done. by rewrite <-Zlt_Qlt. }
  apply pow2_lt_inv in He.
  set (x := ulp_exponent (inject_Z z)).
  assert (x <= 0)%Z as Hx by (unfold x, ulp_exponent; lia).
  apply (round_pos_grid _ (z * 2 ^ (- x))). fold x.
  rewrite inject_Z_mult, <-pow2_Z by lia. rewrite <-Qmult_assoc, <-pow2_plus.
  replace (- x + x)%Z with 0%Z by lia. change (pow2 0) with 1. ring.
Qed.

Lemma is_double_int z : (Z.abs z <= 2 ^ 53)%Z → is_double (inject_Z z).
Proof.
  intros Hz. split.
  - unfold round_float. destruct (inject_Z z ?= 0) eqn:C.
    + apply Qeq_alt in C. by rewrite C.
    + apply Qlt_alt in C. change 0 with (inject_Z 0) in C. rewrite <-Zlt_Qlt in C.
      change (- inject_Z z) with (inject_Z (- z)).
      rewrite round_pos_int by lia. rewrite inject_Z_opp. ring.
    + apply Qgt_alt in C. change 0 with (inject_Z 0) in C. rewrite <-Zlt_Qlt in C.
      apply round_pos_int. lia.
  - apply Qabs_Qlt_condition. rewrite pow2_Z by done. rewrite <-inject_Z_opp.
    rewrite <-!Zlt_Qlt.
    assert (2 ^ 53 < 2 ^ 1024)%Z by (apply Z.pow_lt_mono_r; lia). lia.
Qed.
End RoundFacts.

(** ** Facts about [statistics.mean] *)

Section MeanFacts.
Open Scope Q_scope.

Lemma Qis_integral_spec q :
  Qis_integral q = true → inject_Z (Qnum (Qred q)) == q.
Proof.
  unfold Qis_integral. intros Hd%Pos.eqb_eq.
  rewrite <-(Qred_correct q) at 2.
  destruct (Qred q) as [n d]. simpl in Hd. subst d. reflexivity.
Qed.

Lemma int_true_divide_Ok q x :
  int_true_divide q = Ok x ↔ x = round_float q ∧ Qabs (round_float q) < pow2 1024.
Proof.
  unfold int_true_divide.
  destruct (Qle_bool (pow2 1024) (Qabs (round_float q))) eqn:Hcmp.
  - apply Qle_bool_iff in Hcmp. split; [done|]. intros [_ Hlt].
    by apply Qlt_not_le in Hlt.
  - split.
    + intros [= <-]. split; [done|]. apply Qnot_le_lt. intros Hle.
      apply Qle_bool_iff in Hle. congruence.
    + by intros [-> _].
Qed.

Lemma int_true_divide_Raise q e :
  int_true_divide q = Raise e ↔
  e = OverflowError ∧ pow2 1024 <= Qabs (round_float q).
Proof.
  unfold int_true_divide.
  destruct (Qle_bool (pow2 1024) (Qabs (round_float q))) eqn:Hcmp.
  - apply Qle_bool_iff in Hcmp. split; [by intros [= <-]|by intros [-> _]].
  - split; [done|]. intros [_ Hle]. apply Qle_bool_iff in Hle. congruence.
Qed.

(** What a mean that [statistics.mean] returns is: the exact mean, as an
    int, when all data are ints and it is integral; else the exact mean
    rounded to a float. *)
Lemma statistics_mean_Ok data avg :
  statistics_mean data = Ok avg →
  data ≠ [] ∧
  ((forallb is_int data = true ∧ avg = PyInt (Qnum (Qred (exact_mean data))) ∧
    num_val avg == exact_mean data) ∨
   (avg = PyFloat (round_float (exact_mean data)) ∧
    Qabs (round_float (exact_mean data)) < pow2 1024)).
Proof.
  destruct data as [|v data]; [done|]. unfold statistics_mean.
  set (value := exact_mean (v :: data)).
  destruct (forallb is_int (v :: data) && Qis_integral value) eqn:Hexact.
  - apply andb_true_iff in Hexact as [Hint Hq]. intros [= <-].
    split; [done|]. left. split_and!; [done..|]. by apply Qis_integral_spec.
  - destruct (int_true_divide value) as [x|] eqn:Hdiv; [|done]. intros [= <-].
    apply int_true_divide_Ok in Hdiv as [-> Hlt]. split; [done|]. by right.
Qed.

(** On data, the only exception is [OverflowError]. *)
Lemma statistics_mean_Raise data e :
  statistics_mean data = Raise e →
  (data = [] ∧ e = StatisticsError) ∨
  (data ≠ [] ∧ e = OverflowError ∧
   pow2 1024 <= Qabs (round_float (exact_mean data))).
Proof.
  destruct data as [|v data]; [intros [= <-]; by left|]. unfold statistics_mean.
  set (value := exact_mean (v :: data)).
  destruct (forallb is_int (v :: data) && Qis_integral value); [done|].
  destruct (int_true_divide value) as [x|e'] eqn:Hdiv; [done|]. intros [= <-].
  apply int_true_divide_Raise in Hdiv as [-> Hle]. by right.
Qed.

(** Between two binary64 values that bound the data, the mean exists and
    lies between them. *)
Lemma statistics_mean_between data mn mx :
  data ≠ [] →
  is_double mn → is_double mx →
  (∀ v, v ∈ data → mn <= num_val v <= mx) →
  ∃ avg, statistics_mean data = Ok avg ∧ mn <= num_val avg <= mx.
Proof.
  intros Hne Hmn Hmx Hall.
  pose proof (exact_mean_bounds data mn mx Hne Hall) as Hex.
  destruct (round_between mn mx _ Hmn Hmx Hex) as [Hround Hfin].
  destruct (statistics_mean data) as [avg|e] eqn:Hmean.
  - exists avg. split; [done|].
    apply statistics_mean_Ok in Hmean as [_ [(_ & _ & Heq)|[-> _]]].
    + by rewrite Heq.
    + done.
  - apply statistics_mean_Raise in Hmean as [[? _]|(_ & _ & Hov)]; [done|].
    by apply Qlt_not_le in Hfin.
Qed.

Lemma statistics_mean_functional data m m' :
  statistics_mean data = Ok m → statistics_mean data = Ok m' → m = m'.
Proof. congruence. Qed.
End MeanFacts.

(** ** Facts about the stable sort: which item comes first *)

Section SortFacts.
Context {A : Type}.
Implicit Types (x y : A * num) (l s pre post : list (A * num)).
Open Scope Q_scope.

Lemma sort_insert_perm x l : sort_insert x l ≡ₚ x :: l.
Proof.
  induction l as [|y l IH]; simpl; [done|].
  destruct (num_ltb y.2 x.2); [|done].
  rewrite IH. apply Permutation_swap.
Qed.

Lemma stable_sort_perm l : stable_sort l ≡ₚ l.
Proof.
  induction l as [|x l IH]; simpl; [done|].
  by rewrite sort_insert_perm, IH.
Qed.

(** The model is a sort: the result is ascending in the keys ... *)
Lemma sort_insert_sorted x l :
  StronglySorted (λ a b, num_val a.2 <= num_val b.2) l →
  StronglySorted (λ a b, num_val a.2 <= num_val b.2) (sort_insert x l).
Proof.
  induction l as [|y l IH]; intros Hs; simpl.
  - repeat constructor.
  - apply StronglySorted_inv in Hs as [Hs Hall].
    destruct (num_ltb y.2 x.2) eqn:Hlt.
    + constructor; [by apply IH|]. rewrite sort_insert_perm.
      constructor; [|done]. by apply Qlt_le_weak, num_ltb_lt.
    + apply num_ltb_ge in Hlt. constructor; [by constructor|].
      constructor; [done|]. eapply Forall_impl; [done|].
      intros z Hz. simpl in Hz. by apply Qle_trans with (num_val y.2).
Qed.

Lemma stable_sort_sorted l : StronglySorted (λ a b, num_val a.2 <= num_val b.2) (stable_sort l).
Proof.
  induction l as [|x l IH]; simpl; [constructor|]. by apply sort_insert_sorted.
Qed.

(** ... and it is stable: the items of any one key value keep their order.
    A sorted, stable rearrangement of a list is unique, so this is the list
    Python's sort returns. *)
Lemma sort_insert_stable q x l :
  filter (λ y, Qeq_bool (num_val y.2) q) (sort_insert x l)
  = filter (λ y, Qeq_bool (num_val y.2) q) (x :: l).
Proof.
  induction l as [|y l IH]; simpl; [done|].
  destruct (num_ltb y.2 x.2) eqn:Hlt; [|done].
  rewrite filter_cons, IH, !filter_cons.
  destruct (decide (Qeq_bool (num_val y.2) q)) as [Hy|Hy]; [|done].
  destruct (decide (Qeq_bool (num_val x.2) q)) as [Hx|Hx]; [exfalso|done].
  apply Is_true_true, Qeq_bool_iff in Hy. apply Is_true_true, Qeq_bool_iff in Hx.
  apply num_ltb_lt in Hlt. rewrite Hx, Hy in Hlt. by apply Qlt_irrefl in Hlt.
Qed.

Lemma stable_sort_stable q l :
  filter (λ y, Qeq_bool (num_val y.2) q) (stable_sort l) = filter (λ y, Qeq_bool (num_val y.2) q) l.
Proof.
  induction l as [|x l IH]; simpl; [done|].
  by rewrite sort_insert_stable, !filter_cons, IH.
Qed.

(** With [reverse=True] the items of one key value keep their order too. *)
Lemma reversed_sort_stable q l :
  filter (λ y, Qeq_bool (num_val y.2) q) (reverse (stable_sort (reverse l)))
  = filter (λ y, Qeq_bool (num_val y.2) q) l.
Proof.
  by rewrite filter_reverse, stable_sort_stable, filter_reverse, reverse_involutive.
Qed.

Lemma stable_sort_app l1 l2 :
  stable_sort (l1 ++ l2) = foldr sort_insert (stable_sort l2) l1.
Proof. apply foldr_app. Qed.

(** An item not above any item of [l] is put in front of [l]. *)
Lemma sort_insert_front x l :
  (∀ y, y ∈ l → num_val x.2 <= num_val y.2) → sort_insert x l = x :: l.
Proof.
  destruct l as [|y l]; simpl; [done|]. intros Hall.
  assert (num_ltb y.2 x.2 = false) as ->; [|done].
  apply num_ltb_ge, Hall. left.
Qed.

(** An item above every item of [l] is put behind [l]. *)
Lemma sort_insert_back x l :
  (∀ y, y ∈ l → num_val y.2 < num_val x.2) → sort_insert x l = l ++ [x].
Proof.
  induction l as [|y l IH]; simpl; [done|]. intros Hall.
  assert (num_ltb y.2 x.2 = true) as ->.
  { apply num_ltb_lt, Hall. left. }
  rewrite IH; [done|]. intros z Hz. apply Hall. by right.
Qed.

Lemma sort_insert_keeps_head x y s :
  num_val x.2 < num_val y.2 → sort_insert y (x :: s) = x :: sort_insert y s.
Proof. intros Hlt. simpl. by apply num_ltb_lt in Hlt as ->. Qed.

Lemma sort_insert_keeps_last x y s :
  num_val y.2 <= num_val x.2 → sort_insert y (s ++ [x]) = sort_insert y s ++ [x].
Proof.
  intros Hle. induction s as [|z s IH]; simpl.
  - by apply num_ltb_ge in Hle as ->.
  - destruct (num_ltb z.2 y.2); [|done]. by rewrite IH.
Qed.

Lemma foldr_insert_head pre x s0 :
  (∀ y, y ∈ pre → num_val x.2 < num_val y.2) →
  ∃ s, foldr sort_insert (x :: s0) pre = x :: s.
Proof.
  induction pre as [|p pre IH]; intros Hpre.
  - by exists s0.
  - destruct IH as [s Hs].
    { intros y Hy. apply Hpre. by right. }
    exists (sort_insert p s). cbn [foldr]. rewrite Hs.
    apply sort_insert_keeps_head, Hpre. left.
Qed.

Lemma foldr_insert_last pre x s0 :
  (∀ y, y ∈ pre → num_val y.2 <= num_val x.2) →
  ∃ s, foldr sort_insert (s0 ++ [x]) pre = s ++ [x].
Proof.
  induction pre as [|p pre IH]; intros Hpre.
  - by exists s0.
  - destruct IH as [s Hs].
    { intros y Hy. apply Hpre. by right. }
    exists (sort_insert p s). cbn [foldr]. rewrite Hs.
    apply sort_insert_keeps_last, Hpre. left.
Qed.

(** Ascending: the first of the smallest items comes first. *)
Lemma stable_sort_head pre x post :
  (∀ y, y ∈ pre → num_val x.2 < num_val y.2) →
  (∀ y, y ∈ post → num_val x.2 <= num_val y.2) →
  ∃ s, stable_sort (pre ++ x :: post) = x :: s.
Proof.
  intros Hpre Hpost. rewrite stable_sort_app.
  assert (stable_sort (x :: post) = x :: stable_sort post) as ->.
  { apply sort_insert_front. intros y Hy. apply Hpost.
    by rewrite <-(stable_sort_perm post). }
  by apply foldr_insert_head.
Qed.

(** Ascending: the last of the largest items comes last. *)
Lemma stable_sort_last pre x post :
  (∀ y, y ∈ pre → num_val y.2 <= num_val x.2) →
  (∀ y, y ∈ post → num_val y.2 < num_val x.2) →
  ∃ s, stable_sort (pre ++ x :: post) = s ++ [x].
Proof.
  intros Hpre Hpost. rewrite stable_sort_app.
  assert (stable_sort (x :: post) = stable_sort post ++ [x]) as ->.
  { apply sort_insert_back. intros y Hy. apply Hpost.
    by rewrite <-(stable_sort_perm post). }
  by apply foldr_insert_last.
Qed.
End SortFacts.

(** ** The order [better] and the first best item of a list *)

Section Better.
Open Scope Q_scope.

Lemma better_dec lo a b : {better lo a b} + {¬ better lo a b}.
Proof.
  destruct lo; simpl.
  - destruct (Qlt_le_dec a b); [by left|right]. by apply Qle_not_lt.
  - destruct (Qlt_le_dec b a); [by left|right]. by apply Qle_not_lt.
Qed.

Lemma better_trans lo a b c : better lo a b → better lo b c → better lo a c.
Proof.
  destruct lo; simpl; intros H1 H2.
  - by apply Qlt_trans with b.
  - by apply Qlt_trans with b.
Qed.

Lemma not_better_trans lo a b c :
  ¬ better lo a b → ¬ better lo b c → ¬ better lo a c.
Proof.
  destruct lo; simpl; intros H1%Qnot_lt_le H2%Qnot_lt_le; apply Qle_not_lt.
  - by apply Qle_trans with b.
  - by apply Qle_trans with b.
Qed.

Lemma better_irrefl lo a : ¬ better lo a a.
Proof. destruct lo; apply Qlt_irrefl. Qed.

Lemma better_total lo a b : ¬ a == b → better lo a b ∨ better lo b a.
Proof.
  intros Hne. destruct lo; simpl; destruct (Q_dec a b) as [[?|?]|?]; tauto.
Qed.

(** Every non-empty list splits at its first best item: the items before
    it are strictly worse, no item behind it is strictly better. *)
Lemma first_best_split {B} (key : B → Q) lo (l : list B) :
  l ≠ [] →
  ∃ pre x post, l = pre ++ x :: post ∧
    (∀ y, y ∈ pre → better lo (key x) (key y)) ∧
    (∀ y, y ∈ post → ¬ better lo (key y) (key x)).
Proof.
  induction l as [|a l IH]; [done|]. intros _.
  destruct l as [|a' l'].
  { exists [], a, []. split_and!; [done|..]; intros y Hy; by apply elem_of_nil in Hy. }
  destruct IH as (pre & x & post & Heq & Hpre & Hpost); [done|].
  rewrite Heq. destruct (better_dec lo (key x) (key a)) as [Hb|Hnb].
  - exists (a :: pre), x, post. split_and!; [done| |done].
    intros y [->|Hy]%elem_of_cons; auto.
  - exists [], a, (pre ++ x :: post). split_and!; [done| |].
    + intros y Hy. by apply elem_of_nil in Hy.
    + intros y [Hy|[->|Hy]%elem_of_cons]%elem_of_app.
      * intros Hya. apply Hnb. eapply better_trans; [|done]. by apply Hpre.
      * done.
      * eapply not_better_trans; [|done]. by apply Hpost.
Qed.
End Better.

(** ** [minMaxAvgPerBin]: the loop over the bins *)

Section AggregateFacts.
Context {K : Type} `{EqDecision K} {R : Type}.
Implicit Types (k : K) (l : list R) (statFunction : R → num).
Implicit Types (items bins : list (K * list R)).
Implicit Types (acc stats : list (K * (num * num * num))).

Lemma mean_of_nonempty statFunction l m : mean_of statFunction l m → l ≠ [].
Proof. by intros Hm ->. Qed.

Lemma has_mean_stats statFunction l :
  has_mean statFunction l → ∃ t, bin_stats statFunction l t.
Proof.
  intros [avg Havg]. pose proof (mean_of_nonempty _ _ _ Havg) as Hne.
  destruct (py_min_Ok (statFunction <$> l)) as [mn Hmn]; [by destruct l|].
  destruct (py_max_Ok (statFunction <$> l)) as [mx Hmx]; [by destruct l|].
  by exists (mn, mx, avg).
Qed.

Lemma minMaxAvg_loop_cons statFunction k l items acc :
  minMaxAvg_loop statFunction ((k, l) :: items) acc
  = try! mn := py_min (statFunction <$> l) in
    try! mx := py_max (statFunction <$> l) in
    try! avg := statistics_mean (statFunction <$> l) in
    minMaxAvg_loop statFunction items (dict_set k (mn, mx, avg) acc).
Proof. reflexivity. Qed.

(** One turn of the loop on a bin that has statistics. *)
Lemma minMaxAvg_loop_step statFunction k l t items acc :
  bin_stats statFunction l t →
  minMaxAvg_loop statFunction ((k, l) :: items) acc
  = minMaxAvg_loop statFunction items (dict_set k t acc).
Proof.
  destruct t as [[mn mx] avg]. intros (Hmn & Hmx & Havg). simpl in Hmn, Hmx, Havg.
  rewrite minMaxAvg_loop_cons, Hmn, Hmx, Havg. reflexivity.
Qed.

(** One turn of the loop, read backwards. *)
Lemma minMaxAvg_loop_head statFunction k l items acc (res : result _) :
  minMaxAvg_loop statFunction ((k, l) :: items) acc = res →
  (∃ t, bin_stats statFunction l t ∧
        minMaxAvg_loop statFunction items (dict_set k t acc) = res) ∨
  (l = [] ∧ res = Raise ValueError) ∨
  (l ≠ [] ∧ res = Raise OverflowError ∧
   statistics_mean (statFunction <$> l) = Raise OverflowError).
Proof.
  rewrite minMaxAvg_loop_cons. destruct l as [|r l].
  { intros <-. right. by left. }
  destruct (py_min_Ok (statFunction <$> r :: l)) as [mn Hmn]; [done|].
  destruct (py_max_Ok (statFunction <$> r :: l)) as [mx Hmx]; [done|].
  rewrite Hmn, Hmx. cbn [rbind].
  destruct (statistics_mean (statFunction <$> r :: l)) as [avg|e] eqn:Havg.
  - cbn [rbind]. intros Hres. left. by exists (mn, mx, avg).
  - cbn [rbind]. intros <-.
    apply statistics_mean_Raise in Havg as [[? _]|(_ & -> & _)]; [done|].
    right. by right.
Qed.

Lemma minMaxAvg_loop_ok statFunction items acc :
  (∀ b, b ∈ items → has_mean statFunction b.2) →
  NoDup (dict_keys acc ++ dict_keys items) →
  ∃ stats, minMaxAvg_loop statFunction items acc = Ok (acc ++ stats) ∧
    Forall2 (λ b s, s.1 = b.1 ∧ bin_stats statFunction b.2 s.2) items stats.
Proof.
  revert acc. induction items as [|[k l] items IH]; intros acc Hmean Hnd.
  - exists []. by rewrite app_nil_r.
  - destruct (has_mean_stats statFunction l) as [t Ht].
    { apply (Hmean (k, l)). left. }
    rewrite (minMaxAvg_loop_step _ _ _ t _ _ Ht). rewrite dict_set_fresh.
    2:{ apply NoDup_app in Hnd as (_ & Hdisj & _). intros Hk.
        apply (Hdisj _ Hk). left. }
    destruct (IH (acc ++ [(k, t)])) as (stats & -> & Hall).
    { intros b Hb. apply Hmean. by right. }
    { rewrite dict_keys_app. simpl. by rewrite <-app_assoc. }
    exists ((k, t) :: stats). split.
    + by rewrite <-app_assoc.
    + constructor; [|done]. by split.
Qed.

Lemma minMaxAvg_loop_Ok_has_mean statFunction items acc stats :
  minMaxAvg_loop statFunction items acc = Ok stats →
  ∀ b, b ∈ items → has_mean statFunction b.2.
Proof.
  revert acc. induction items as [|[k l] items IH]; intros acc Hloop b Hb.
  - by apply elem_of_nil in Hb.
  - apply minMaxAvg_loop_head in Hloop as [(t & Ht & Hloop)|[[_ ?]|(_ & ? & _)]];
      [|done..].
    apply elem_of_cons in Hb as [->|Hb]; [|by eapply IH].
    destruct Ht as (_ & _ & Havg). by exists t.2.
Qed.

(** An empty bin stops the loop, unless the mean of a bin before it was
    too large for a float. *)
Lemma minMaxAvg_loop_empty_bin statFunction items acc k :
  (k, []) ∈ items →
  ∃ e, minMaxAvg_loop statFunction items acc = Raise e ∧
       (e = ValueError ∨ e = OverflowError).
Proof.
  revert acc. induction items as [|[k' l] items IH]; intros acc Hin.
  - by apply elem_of_nil in Hin.
  - destruct (minMaxAvg_loop_head statFunction k' l items acc _ eq_refl)
      as [(t & Ht & Hloop)|[[_ Hr]|(_ & Hr & _)]].
    + apply elem_of_cons in Hin as [[= <- <-]|Hin].
      { destruct Ht as (Hmn & _). done. }
      rewrite <-Hloop. by apply IH.
    + exists ValueError. split; [done|by left].
    + exists OverflowError. split; [done|by right].
Qed.

Lemma minMaxAvg_loop_empty_bin_ValueError statFunction items acc k :
  (k, []) ∈ items →
  (∀ b, b ∈ items → b.2 ≠ [] → has_mean statFunction b.2) →
  minMaxAvg_loop statFunction items acc = Raise ValueError.
Proof.
  revert acc. induction items as [|[k' l] items IH]; intros acc Hin Hmean.
  - by apply elem_of_nil in Hin.
  - destruct (minMaxAvg_loop_head statFunction k' l items acc _ eq_refl)
      as [(t & Ht & Hloop)|[[_ Hr]|(Hne & _ & Hov)]].
    + apply elem_of_cons in Hin as [[= <- <-]|Hin].
      { destruct Ht as (Hmn & _). done. }
      rewrite <-Hloop. apply IH; [done|]. intros b Hb. apply Hmean. by right.
    + done.
    + destruct (Hmean (k', l)) as [m Hm]; [left|done|].
      unfold mean_of in Hm. simpl in Hm. congruence.
Qed.

(** The loop raises nothing but [ValueError], at an empty bin, and
    [OverflowError], at a bin whose mean is too large for a float. *)
Lemma minMaxAvg_loop_raises statFunction items acc e :
  minMaxAvg_loop statFunction items acc = Raise e →
  (e = ValueError ∧ ∃ k, (k, []) ∈ items) ∨
  (e = OverflowError ∧
   ∃ b, b ∈ items ∧ b.2 ≠ [] ∧
        statistics_mean (statFunction <$> b.2) = Raise OverflowError).
Proof.
  revert acc. induction items as [|[k l] items IH]; intros acc Hloop; [done|].
  apply minMaxAvg_loop_head in Hloop as [(t & Ht & Hloop)|[[-> [= ->]]|(? & [= ->] & ?)]].
  - destruct (IH _ Hloop) as [[-> [k' Hk']]|[-> (b & Hb & Hne & Hov)]].
    + left. split; [done|]. exists k'. by right.
    + right. split; [done|]. exists b. split_and!; [by right|done..].
  - left. split; [done|]. exists k. left.
  - right. split; [done|]. exists (k, l). split_and!; [left|done..].
Qed.

Lemma minMaxAvg_loop_not_nil statFunction items acc stats :
  minMaxAvg_loop statFunction items acc = Ok stats →
  items ≠ [] ∨ acc ≠ [] → stats ≠ [].
Proof.
  revert acc. induction items as [|[k l] items IH]; intros acc.
  - intros [= <-] [?|?]; done.
  - intros Hloop _.
    apply minMaxAvg_loop_head in Hloop as [(t & Ht & Hloop)|[[_ ?]|(_ & ? & _)]];
      [|done..].
    apply (IH _ Hloop). right. apply dict_set_not_nil.
Qed.

Lemma dict_keys_set {V} k k' (v : V) (d : list (K * V)) :
  k' ∈ dict_keys (dict_set k v d) ↔ k' = k ∨ k' ∈ dict_keys d.
Proof.
  unfold dict_keys. induction d as [|[k0 v0] d IH]; simpl.
  - rewrite list_elem_of_singleton. split; [by left|]. intros [?|Hin]; [done|].
    by apply elem_of_nil in Hin.
  - destruct (decide (k = k0)) as [->|Hne]; rewrite !fmap_cons; simpl.
    + rewrite !elem_of_cons. tauto.
    + rewrite !elem_of_cons, IH. tauto.
Qed.

Lemma dict_set_wf {V} k (v : V) (d : list (K * V)) :
  dict_wf d → dict_wf (dict_set k v d).
Proof.
  unfold dict_wf, dict_keys. induction d as [|[k0 v0] d IH]; simpl.
  - intros _. apply NoDup_singleton.
  - rewrite NoDup_cons. intros [Hk0 Hnd].
    destruct (decide (k = k0)) as [->|Hne]; rewrite !fmap_cons; simpl.
    + by apply NoDup_cons.
    + apply NoDup_cons. split; [|by apply IH].
      intros Hin. apply (dict_keys_set k k0 v d) in Hin as [?|?]; done.
Qed.

Lemma minMaxAvg_loop_keys statFunction items acc stats :
  minMaxAvg_loop statFunction items acc = Ok stats →
  ∀ k, k ∈ dict_keys stats ↔ k ∈ dict_keys acc ∨ k ∈ dict_keys items.
Proof.
  revert acc. induction items as [|[k0 l] items IH]; intros acc.
  - intros [= <-] k. split; [by left|]. intros [?|Hin]; [done|].
    by apply elem_of_nil in Hin.
  - intros Hloop k.
    apply minMaxAvg_loop_head in Hloop as [(t & Ht & Hloop)|[[_ ?]|(_ & ? & _)]];
      [|done..].
    rewrite (IH _ Hloop k), dict_keys_set.
    change (dict_keys ((k0, l) :: items)) with (k0 :: dict_keys items).
    rewrite elem_of_cons. tauto.
Qed.

Lemma minMaxAvg_loop_wf statFunction items acc stats :
  minMaxAvg_loop statFunction items acc = Ok stats → dict_wf acc → dict_wf stats.
Proof.
  revert acc. induction items as [|[k0 l] items IH]; intros acc.
  - by intros [= <-].
  - intros Hloop Hwf.
    apply minMaxAvg_loop_head in Hloop as [(t & Ht & Hloop)|[[_ ?]|(_ & ? & _)]];
      [|done..].
    apply (IH _ Hloop). by apply dict_set_wf.
Qed.

Lemma minMaxAvgPerBin_wf statFunction bins stats :
  minMaxAvgPerBin bins statFunction = Ok stats → dict_wf stats.
Proof. intros Hloop. apply (minMaxAvg_loop_wf _ _ _ _ Hloop). apply NoDup_nil_2. Qed.

(** On a well-formed mapping whose bins all have a mean the result has the
    same keys in the same order, each with the triple of its bin. *)
Lemma minMaxAvgPerBin_ok statFunction bins :
  dict_wf bins →
  (∀ b, b ∈ bins → has_mean statFunction b.2) →
  ∃ stats, minMaxAvgPerBin bins statFunction = Ok stats ∧
    Forall2 (λ b s, s.1 = b.1 ∧ bin_stats statFunction b.2 s.2) bins stats.
Proof.
  intros Hwf Hmean. unfold minMaxAvgPerBin.
  destruct (minMaxAvg_loop_ok statFunction bins [] Hmean Hwf) as (stats & Hl & Hall).
  by exists stats.
Qed.

Lemma minMaxAvgPerBin_Ok_inv statFunction bins stats :
  dict_wf bins →
  minMaxAvgPerBin bins statFunction = Ok stats →
  Forall2 (λ b s, s.1 = b.1 ∧ bin_stats statFunction b.2 s.2) bins stats.
Proof.
  intros Hwf Hok.
  destruct (minMaxAvgPerBin_ok statFunction bins Hwf) as (stats' & Hok' & Hall).
  { by eapply minMaxAvg_loop_Ok_has_mean. }
  rewrite Hok in Hok'. by injection Hok' as ->.
Qed.

Lemma stats_keys statFunction bins stats :
  Forall2 (λ b s, s.1 = b.1 ∧ bin_stats statFunction b.2 s.2) bins stats →
  dict_keys stats = dict_keys bins.
Proof.
  unfold dict_keys. induction 1 as [|b s bins stats [Hk _] _ IH]; [done|].
  rewrite !fmap_cons. by rewrite Hk, IH.
Qed.


Lemma bin_of_stats statFunction bins stats k t :
  Forall2 (λ b s, s.1 = b.1 ∧ bin_stats statFunction b.2 s.2) bins stats →
  (k, t) ∈ stats →
  ∃ l, (k, l) ∈ bins ∧ bin_stats statFunction l t.
Proof.
  induction 1 as [|[k' l] s bins stats [Hk Hs] _ IH]; intros Hin.
  - by apply elem_of_nil in Hin.
  - apply elem_of_cons in Hin as [<-|Hin].
    + exists l. simpl in Hk. subst k'. split; [left|done].
    + destruct (IH Hin) as (l' & Hin' & Hs'). exists l'. split; [by right|done].
Qed.
End AggregateFacts.

(** ** [getBestBin]: the sort of the keys and its first item *)

Section BestFacts.
Context {K : Type} `{EqDecision K} {R : Type}.
Implicit Types (k : K) (l : list R) (statFunction : R → num).
Implicit Types (bins : list (K * list R)).
Implicit Types (d stats pre post : list (K * (num * num * num))).

Lemma getBestBin_unfold bins statFunction lowerIsBetter :
  getBestBin bins statFunction lowerIsBetter
  = try! minMaxAvg := minMaxAvgPerBin bins statFunction in
    try! keyed := rmapM (avg_keyed minMaxAvg) (dict_keys minMaxAvg) in
    match (if negb lowerIsBetter
           then (reverse (stable_sort (reverse keyed))).*1
           else (stable_sort keyed).*1) with
    | [] => Raise IndexError
    | best :: _ => Ok best
    end.
Proof.
  unfold getBestBin, list_sort, avg_keyed.
  destruct (minMaxAvgPerBin bins statFunction) as [d|]; [|done].
  cbn [rbind]. by destruct (rmapM _ _).
Qed.

Lemma getBestBin_nil statFunction lowerIsBetter :
  getBestBin (@nil (K * list R)) statFunction lowerIsBetter = Raise IndexError.
Proof. by destruct lowerIsBetter. Qed.

Lemma getBestBin_Raise bins statFunction lowerIsBetter e :
  minMaxAvgPerBin bins statFunction = Raise e →
  getBestBin bins statFunction lowerIsBetter = Raise e.
Proof. intros Hr. rewrite getBestBin_unfold. by rewrite Hr. Qed.

Lemma avg_keyed_stored d (ss : list (K * (num * num * num))) :
  (∀ s, s ∈ ss → dict_get s.1 d = Some s.2) →
  rmapM (avg_keyed d) (dict_keys ss) = Ok ((λ s, (s.1, s.2.2)) <$> ss).
Proof.
  unfold dict_keys. induction ss as [|s ss IH]; intros Hget; [done|].
  rewrite !fmap_cons. cbn [rmapM]. unfold avg_keyed at 1.
  rewrite (Hget s) by left. cbn [tuple_getitem MMAAvg rbind].
  rewrite IH; [done|]. intros s' Hs'. apply Hget. by right.
Qed.

Lemma avg_keyed_all d :
  dict_wf d → rmapM (avg_keyed d) (dict_keys d) = Ok ((λ s, (s.1, s.2.2)) <$> d).
Proof.
  intros Hwf. apply avg_keyed_stored. intros [k t] Hs. by apply dict_get_wf.
Qed.

Lemma sorted_keys_perm (reverse_flag : bool) (keyed : list (K * num)) :
  (if reverse_flag then (reverse (stable_sort (reverse keyed))).*1
   else (stable_sort keyed).*1) ≡ₚ keyed.*1.
Proof.
  destruct reverse_flag.
  - by rewrite reverse_Permutation, stable_sort_perm, reverse_Permutation.
  - by rewrite stable_sort_perm.
Qed.

(** The bin returned is the one at which the statistics split into
    strictly worse means before it and no strictly better mean behind
    it. *)
Lemma getBestBin_stats_split bins statFunction lowerIsBetter stats pre k t post :
  minMaxAvgPerBin bins statFunction = Ok stats →
  stats = pre ++ (k, t) :: post →
  (∀ s, s ∈ pre → better lowerIsBetter (num_val t.2) (num_val s.2.2)) →
  (∀ s, s ∈ post → ¬ better lowerIsBetter (num_val s.2.2) (num_val t.2)) →
  getBestBin bins statFunction lowerIsBetter = Ok k.
Proof.
  intros Hok Hsplit Hpre Hpost. rewrite getBestBin_unfold, Hok. cbn [rbind].
  rewrite avg_keyed_all by by eapply minMaxAvgPerBin_wf.
  cbn [rbind]. rewrite Hsplit.
  set (g := λ s : K * (num * num * num), (s.1, s.2.2)).
  rewrite fmap_app, fmap_cons. destruct lowerIsBetter; cbn [negb].
  - destruct (stable_sort_head (g <$> pre) (g (k, t)) (g <$> post)) as [s ->].
    + intros y (b & -> & Hb)%list_elem_of_fmap. by apply Hpre.
    + intros y (b & -> & Hb)%list_elem_of_fmap.
      apply Qnot_lt_le. by apply Hpost.
    + done.
  - rewrite reverse_app, reverse_cons, <-app_assoc. cbn [app].
    destruct (stable_sort_last (reverse (g <$> post)) (g (k, t))
                (reverse (g <$> pre))) as [s ->].
    + intros y (b & -> & Hb)%elem_of_reverse%list_elem_of_fmap.
      apply Qnot_lt_le. by apply Hpost.
    + intros y (b & -> & Hb)%elem_of_reverse%list_elem_of_fmap. by apply Hpre.
    + by rewrite reverse_snoc.
Qed.

(** The statistics always split so: at the first of the best means. *)
Lemma getBestBin_stats_first_best bins statFunction lowerIsBetter stats :
  minMaxAvgPerBin bins statFunction = Ok stats →
  stats ≠ [] →
  ∃ pre k t post, stats = pre ++ (k, t) :: post ∧
    getBestBin bins statFunction lowerIsBetter = Ok k ∧
    (∀ s, s ∈ pre → better lowerIsBetter (num_val t.2) (num_val s.2.2)) ∧
    (∀ s, s ∈ post → ¬ better lowerIsBetter (num_val s.2.2) (num_val t.2)).
Proof.
  intros Hok Hnil.
  destruct (first_best_split (λ s : K * (num * num * num), num_val s.2.2)
              lowerIsBetter stats Hnil)
    as (pre & [k t] & post & Hsplit & Hpre & Hpost).
  exists pre, k, t, post. split_and!; [done| |done..].
  by eapply getBestBin_stats_split.
Qed.

Lemma minMaxAvgPerBin_not_nil bins statFunction stats :
  minMaxAvgPerBin bins statFunction = Ok stats → bins ≠ [] → stats ≠ [].
Proof. intros Hok Hnil. apply (minMaxAvg_loop_not_nil _ _ _ _ Hok). by left. Qed.

(** When the statistics exist and the mapping is not empty, a key of the
    mapping is returned. *)
Lemma getBestBin_Ok bins statFunction lowerIsBetter stats :
  minMaxAvgPerBin bins statFunction = Ok stats →
  bins ≠ [] →
  ∃ k, getBestBin bins statFunction lowerIsBetter = Ok k ∧ k ∈ dict_keys bins.
Proof.
  intros Hok Hnil.
  destruct (getBestBin_stats_first_best bins statFunction lowerIsBetter stats Hok)
    as (pre & k & t & post & Hsplit & Hbest & _); [by eapply minMaxAvgPerBin_not_nil|].
  exists k. split; [done|].
  assert (k ∈ dict_keys stats) as Hin.
  { rewrite Hsplit. unfold dict_keys. rewrite fmap_app, fmap_cons.
    apply elem_of_app. right. left. }
  apply (minMaxAvg_loop_keys _ _ _ _ Hok) in Hin as [Hin|Hin]; [|done].
  by apply elem_of_nil in Hin.
Qed.

(** [IndexError] is raised for the empty mapping only. *)
Lemma getBestBin_not_IndexError bins statFunction lowerIsBetter :
  bins ≠ [] → getBestBin bins statFunction lowerIsBetter ≠ Raise IndexError.
Proof.
  intros Hne.
  destruct (minMaxAvgPerBin bins statFunction) as [stats|e] eqn:Hok.
  - destruct (getBestBin_Ok bins statFunction lowerIsBetter stats Hok Hne)
      as (k & -> & _). done.
  - rewrite (getBestBin_Raise _ _ _ _ Hok).
    apply minMaxAvg_loop_raises in Hok as [[-> _]|[-> _]]; done.
Qed.

Lemma Forall2_elem_of_l {A B} (P : A → B → Prop) (xs : list A) (ys : list B) x :
  Forall2 P xs ys → x ∈ xs → ∃ y, y ∈ ys ∧ P x y.
Proof.
  induction 1 as [|x' y' xs ys Hp _ IH]; intros Hin.
  - by apply elem_of_nil in Hin.
  - apply elem_of_cons in Hin as [->|Hin].
    + exists y'. split; [left|done].
    + destruct (IH Hin) as (y & Hy & Hpy). exists y. split; [by right|done].
Qed.

(** The same, read on the mapping: the bin returned is the first one, in
    iteration order, whose computed mean no other computed mean beats. *)
Lemma getBestBin_first_best bins statFunction lowerIsBetter :
  dict_wf bins →
  bins ≠ [] →
  (∀ b, b ∈ bins → has_mean statFunction b.2) →
  ∃ bpre k l m bpost, bins = bpre ++ (k, l) :: bpost ∧
    mean_of statFunction l m ∧
    getBestBin bins statFunction lowerIsBetter = Ok k ∧
    (∀ b m', b ∈ bpre → mean_of statFunction b.2 m' →
       better lowerIsBetter (num_val m) (num_val m')) ∧
    (∀ b m', b ∈ bpost → mean_of statFunction b.2 m' →
       ¬ better lowerIsBetter (num_val m') (num_val m)).
Proof.
  intros Hwf Hnil Hmean.
  destruct (minMaxAvgPerBin_ok statFunction bins Hwf Hmean) as (stats & Hok & Hall).
  destruct (getBestBin_stats_first_best bins statFunction lowerIsBetter stats Hok)
    as (pre & k & t & post & Hsplit & Hbest & Hpre & Hpost);
    [by eapply minMaxAvgPerBin_not_nil|].
  rewrite Hsplit in Hall.
  apply Forall2_app_inv_r in Hall as (bpre & brest & Hallpre & Hallrest & ->).
  apply Forall2_cons_inv_r in Hallrest
    as ([k' l] & bpost & [Hk (_ & _ & Hm)] & Hallpost & ->).
  simpl in Hk, Hm. subst k'.
  exists bpre, k, l, t.2, bpost. split_and!; [done..| |].
  - intros b m' Hb Hm'.
    destruct (Forall2_elem_of_l _ _ _ _ Hallpre Hb) as (s & Hs & _ & _ & _ & Hms).
    unfold mean_of in Hm'. rewrite Hm' in Hms. injection Hms as ->. by apply Hpre.
  - intros b m' Hb Hm'.
    destruct (Forall2_elem_of_l _ _ _ _ Hallpost Hb) as (s & Hs & _ & _ & _ & Hms).
    unfold mean_of in Hm'. rewrite Hm' in Hms. injection Hms as ->. by apply Hpost.
Qed.
End BestFacts.

(** ** The properties of the specification *)

Section Claims.
Context {K : Type} `{EqDecision K} {R : Type}.
Implicit Types (k : K) (r : R) (l results : list R).
Implicit Types (binningFunction : R → K) (statFunction : R → Q).
Implicit Types (bins pre post : list (K * list R)).
Open Scope Q_scope.

(** C1. Partition: the keys of the returned mapping are pairwise distinct;
    every input record is in the bin stored under its key and in no bin
    stored under another key; two input records share a bin exactly when
    their keys are equal; and the bins, concatenated in iteration order,
    are a permutation of the input. *)
Theorem binResultsBy_partition results binningFunction :
  let bins := binResultsBy results binningFunction in
  dict_wf bins ∧
  (∀ r, r ∈ results →
     ∃ l, dict_get (binningFunction r) bins = Some l ∧ r ∈ l) ∧
  (∀ k l r, (k, l) ∈ bins → r ∈ l → k = binningFunction r) ∧
  (∀ r1 r2, r1 ∈ results → r2 ∈ results →
     (∃ k l, (k, l) ∈ bins ∧ r1 ∈ l ∧ r2 ∈ l) ↔
     binningFunction r1 = binningFunction r2) ∧
  concat bins.*2 ≡ₚ results.
Proof.
  intros bins.
  assert (Hown : ∀ r, r ∈ results →
            ∃ l, dict_get (binningFunction r) bins = Some l ∧ r ∈ l).
  { intros r Hr. unfold bins. rewrite binResultsBy_get.
    assert (r ∈ filter (λ r', binningFunction r' = binningFunction r) results)
      as Hin by by apply list_elem_of_filter.
    destruct (filter _ results) as [|r0 l0] eqn:Hf.
    - by apply elem_of_nil in Hin.
    - by exists (r0 :: l0). }
  assert (Hkey : ∀ k l r, (k, l) ∈ bins → r ∈ l → k = binningFunction r).
  { intros k l r [-> _]%binResultsBy_elem_of Hr.
    by apply list_elem_of_filter in Hr as [-> _]. }
  split_and!; [apply binResultsBy_wf|done|done| |apply binResultsBy_concat].
  intros r1 r2 Hr1 Hr2. split.
  - intros (k & l & Hin & H1 & H2).
    by rewrite <-(Hkey k l r1), <-(Hkey k l r2).
  - intros Heq. destruct (Hown r1 Hr1) as (l & Hget & Hin).
    exists (binningFunction r1), l. split_and!; [by apply dict_get_elem_of|done|].
    destruct (Hown r2 Hr2) as (l2 & Hget2 & Hin2).
    rewrite <-Heq, Hget in Hget2. by injection Hget2 as ->.
Qed.

(** C4. Stability: each bin is the input with the records of the other
    keys removed, hence a subsequence of the input: its records are in
    their input order. *)
Theorem binResultsBy_stable results binningFunction k l :
  (k, l) ∈ binResultsBy results binningFunction →
  l = filter (λ r, binningFunction r = k) results ∧ l `sublist_of` results.
Proof.
  intros [-> _]%binResultsBy_elem_of. split; [done|]. apply sublist_filter.
Qed.

(** C7. Binning no record gives the empty mapping. *)
Theorem binResultsBy_nil binningFunction :
  binResultsBy (@nil R) binningFunction = [].
Proof. reflexivity. Qed.

(** C8. No bin of the returned mapping is empty. *)
Theorem binResultsBy_bins_nonempty results binningFunction k l :
  (k, l) ∈ binResultsBy results binningFunction → l ≠ [].
Proof. by intros [_ ?]%binResultsBy_elem_of. Qed.
End Claims.

Section ClaimsAggregate.
Context {K : Type} `{EqDecision K} {R : Type}.
Implicit Types (k : K) (r : R) (l results : list R).
Implicit Types (binningFunction : R → K) (statFunction : R → num).
Implicit Types (bins pre post : list (K * list R)).
Open Scope Q_scope.



(** C6. A mapping with an empty bin makes [minMaxAvgPerBin] raise: no
    statistics are returned.  The exception is [ValueError], from [min] of
    no values, unless the mean of a bin before the empty one was too large
    for a float, which raises [OverflowError] first. *)
Theorem minMaxAvgPerBin_empty_bin bins statFunction k :
  (k, []) ∈ bins →
  (∃ e, minMaxAvgPerBin bins statFunction = Raise e ∧
        (e = ValueError ∨ e = OverflowError)) ∧
  ((∀ b, b ∈ bins → b.2 ≠ [] → has_mean statFunction b.2) →
   minMaxAvgPerBin bins statFunction = Raise ValueError).
Proof.
  intros Hin. split.
  - by apply (minMaxAvg_loop_empty_bin statFunction bins [] k).
  - by apply (minMaxAvg_loop_empty_bin_ValueError statFunction bins [] k).
Qed.

(** C5. On the empty mapping [getBestBin] raises [IndexError], for every
    value function and flag, and it raises that error on no other
    mapping. *)
Theorem getBestBin_empty statFunction lowerIsBetter :
  getBestBin (@nil (K * list R)) statFunction lowerIsBetter = Raise IndexError ∧
  ∀ bins, getBestBin bins statFunction lowerIsBetter = Raise IndexError ↔ bins = [].
Proof.
  assert (getBestBin (@nil (K * list R)) statFunction lowerIsBetter
          = Raise IndexError) as Hnil by (by destruct lowerIsBetter).
  split; [done|]. intros bins. split.
  - intros Hraise. destruct bins as [|b bins]; [done|].
    by apply getBestBin_not_IndexError in Hraise.
  - by intros ->.
Qed.

(** C10. Ties: [getBestBin] returns the key of a bin whose computed mean no
    computed mean beats, and every bin that comes before it in the
    iteration order of the mapping has a strictly worse computed mean; so
    among the bins that share the best mean it is the earliest one. *)
Theorem getBestBin_tie_break bins statFunction lowerIsBetter :
  dict_wf bins →
  bins ≠ [] →
  (∀ b, b ∈ bins → has_mean statFunction b.2) →
  ∃ pre k l m post, bins = pre ++ (k, l) :: post ∧
    mean_of statFunction l m ∧
    getBestBin bins statFunction lowerIsBetter = Ok k ∧
    (∀ b m', b ∈ bins → mean_of statFunction b.2 m' →
       ¬ better lowerIsBetter (num_val m') (num_val m)) ∧
    (∀ b m', b ∈ pre → mean_of statFunction b.2 m' →
       better lowerIsBetter (num_val m) (num_val m') ∧
       ¬ num_val m' == num_val m).
Proof.
  intros Hwf Hnil Hmean.
  destruct (getBestBin_first_best bins statFunction lowerIsBetter Hwf Hnil Hmean)
    as (pre & k & l & m & post & Hsplit & Hm & Hbest & Hpre & Hpost).
  exists pre, k, l, m, post. split_and!; [done..| |].
  - intros b m'. rewrite Hsplit.
    intros [Hb|[->|Hb]%elem_of_cons]%elem_of_app Hm'.
    + intros Hbetter. apply (better_irrefl lowerIsBetter (num_val m)).
      eapply better_trans; [by eapply Hpre|done].
    + simpl in Hm'. unfold mean_of in Hm, Hm'. rewrite Hm in Hm'.
      injection Hm' as ->. apply better_irrefl.
    + by eapply Hpost.
  - intros b m' Hb Hm'. split; [by eapply Hpre|].
    intros Heq. specialize (Hpre b m' Hb Hm').
    destruct lowerIsBetter; simpl in Hpre; rewrite Heq in Hpre;
      by apply Qlt_irrefl in Hpre.
Qed.

(** C2. Direction: on a non-empty mapping whose bins have pairwise
    distinct computed means, [getBestBin] with [lowerIsBetter = true]
    returns the key of the bin whose mean is below the mean of every
    other bin, and with [lowerIsBetter = false] the key of the bin whose
    mean is above the mean of every other bin. *)
Theorem getBestBin_direction bins statFunction :
  dict_wf bins →
  bins ≠ [] →
  (∀ b, b ∈ bins → has_mean statFunction b.2) →
  (∀ b1 b2 m1 m2, b1 ∈ bins → b2 ∈ bins → b1.1 ≠ b2.1 →
     mean_of statFunction b1.2 m1 → mean_of statFunction b2.2 m2 →
     ¬ num_val m1 == num_val m2) →
  (∃ k l m, (k, l) ∈ bins ∧ mean_of statFunction l m ∧
     getBestBin bins statFunction true = Ok k ∧
     ∀ b m', b ∈ bins → b.1 ≠ k → mean_of statFunction b.2 m' →
       num_val m < num_val m') ∧
  (∃ k l m, (k, l) ∈ bins ∧ mean_of statFunction l m ∧
     getBestBin bins statFunction false = Ok k ∧
     ∀ b m', b ∈ bins → b.1 ≠ k → mean_of statFunction b.2 m' →
       num_val m' < num_val m).
Proof.
  intros Hwf Hnil Hmean Hdistinct.
  assert (∀ lo, ∃ k l m, (k, l) ∈ bins ∧ mean_of statFunction l m ∧
            getBestBin bins statFunction lo = Ok k ∧
            ∀ b m', b ∈ bins → b.1 ≠ k → mean_of statFunction b.2 m' →
              better lo (num_val m) (num_val m')) as Hlo.
  { intros lo.
    destruct (getBestBin_first_best bins statFunction lo Hwf Hnil Hmean)
      as (pre & k & l & m & post & Hsplit & Hm & Hbest & Hpre & Hpost).
    assert ((k, l) ∈ bins) as Hkl.
    { rewrite Hsplit. apply elem_of_app. right. left. }
    exists k, l, m. split_and!; [done..|]. intros b m' Hb Hk Hm'.
    assert (¬ num_val m' == num_val m) as Hneq.
    { by apply (Hdistinct b (k, l)). }
    rewrite Hsplit in Hb.
    apply elem_of_app in Hb as [Hb|[->|Hb]%elem_of_cons]; [by eapply Hpre|done|].
    destruct (better_total lo _ _ Hneq) as [Hbad|?]; [|done].
    by apply (Hpost b m' Hb Hm') in Hbad. }
  split; [apply (Hlo true)|apply (Hlo false)].
Qed.
End ClaimsAggregate.

(** ** The scenarios, evaluated *)

Module ScenarioFacts.
Import Scenario.

Example scenario_bins : bins = [(4%Z, [r1; r2]); (8%Z, [r3])].
Proof. reflexivity. Qed.

Example scenario_stats :
  minMaxAvgPerBin bins time
  = Ok [(4%Z, (PyInt 10, PyInt 20, PyInt 15)); (8%Z, (PyInt 5, PyInt 5, PyInt 5))].
Proof. vm_compute. reflexivity. Qed.

Example scenario_best : getBestBin bins time true = Ok 8%Z.
Proof. vm_compute. reflexivity. Qed.

Example scenario_best_higher : getBestBin bins time false = Ok 4%Z.
Proof. vm_compute. reflexivity. Qed.

Example scenario_empty :
  binResultsBy (@nil sample) nb = [] ∧
  getBestBin (binResultsBy (@nil sample) nb) time true = Raise IndexError.
Proof. split; reflexivity. Qed.

Example scenario_single :
  let r := {| nb := 1; time := PyFloat 100 |} in
  binResultsBy [r] nb = [(1%Z, [r])] ∧
  (∃ avg, minMaxAvgPerBin (binResultsBy [r] nb) time
          = Ok [(1%Z, (PyFloat 100, PyFloat 100, PyFloat avg))] ∧ (avg == 100)%Q) ∧
  getBestBin (binResultsBy [r] nb) time true = Ok 1%Z ∧
  getBestBin (binResultsBy [r] nb) time false = Ok 1%Z.
Proof.
  split_and!; [reflexivity| |vm_compute; reflexivity..].
  eexists. split; [vm_compute; reflexivity|]. vm_compute. reflexivity.
Qed.

(** The mean of [0.1, 0.2, 0.3] is the float [0.2], which is not the sum
    divided by the count. *)
Example mean_of_tenths :
  ∃ x, statistics_mean [PyFloat Floats.f01; PyFloat Floats.f02; PyFloat Floats.f03]
       = Ok (PyFloat x) ∧
       (x == Floats.f02)%Q ∧
       ¬ (x == exact_mean [PyFloat Floats.f01; PyFloat Floats.f02; PyFloat Floats.f03])%Q.
Proof.
  eexists. split; [vm_compute; reflexivity|]. split; vm_compute; [reflexivity|discriminate].
Qed.

(** Two bins whose computed means are both [0.2]: the one inserted first
    is returned, in both directions, although the exact mean of the other
    one is smaller. *)
Example floats_tie :
  getBestBin Floats.bins (λ v, v) true = Ok 2%Z ∧
  getBestBin Floats.bins (λ v, v) false = Ok 2%Z ∧
  (exact_mean [PyFloat Floats.f01; PyFloat Floats.f02; PyFloat Floats.f03]
   < exact_mean [PyFloat Floats.f02])%Q.
Proof. split_and!; vm_compute; reflexivity. Qed.

(** A mean too large for a float: [statistics.mean] raises. *)
Example mean_overflow :
  statistics_mean [PyInt (10 ^ 400); PyInt (10 ^ 400 + 1)] = Raise OverflowError.
Proof. vm_compute. reflexivity. Qed.

(** Equal exact means need not be equal computed means: the floats
    [2 ** 53] and [2 ** 53 + 2] have the computed mean [2 ** 53], the int
    [2 ** 53 + 1] has the mean [2 ** 53 + 1], and the second bin wins when
    higher is better. *)
Example mixed_types :
  getBestBin
    [ (1%Z, [PyFloat (inject_Z (2 ^ 53)); PyFloat (inject_Z (2 ^ 53 + 2))]);
      (2%Z, [PyInt (2 ^ 53 + 1)]) ] (λ v, v) false
  = Ok 2%Z.
Proof. vm_compute. reflexivity. Qed.
End ScenarioFacts.

(** ** The properties at the scenarios *)


Lemma scenario_wf : dict_wf Scenario.bins.
Proof. apply binResultsBy_wf. Qed.

Lemma scenario_not_nil : Scenario.bins ≠ [].
Proof. discriminate. Qed.



Lemma scenario_has_mean : ∀ b, b ∈ Scenario.bins → has_mean Scenario.time b.2.
Proof.
  intros b Hb. change Scenario.bins with
    [(4%Z, [Scenario.r1; Scenario.r2]); (8%Z, [Scenario.r3])] in Hb.
  apply elem_of_cons in Hb as [->|Hb]; [by exists (PyInt 15)|].
  apply list_elem_of_singleton in Hb as ->. by exists (PyInt 5).
Qed.

Lemma scenario_distinct :
  ∀ b1 b2 m1 m2, b1 ∈ Scenario.bins → b2 ∈ Scenario.bins → b1.1 ≠ b2.1 →
    mean_of Scenario.time b1.2 m1 → mean_of Scenario.time b2.2 m2 →
    ¬ (num_val m1 == num_val m2)%Q.
Proof.
  intros b1 b2 m1 m2 H1 H2. change Scenario.bins with
    [(4%Z, [Scenario.r1; Scenario.r2]); (8%Z, [Scenario.r3])] in H1, H2.
  apply elem_of_cons in H1 as [->|H1]; [|apply list_elem_of_singleton in H1 as ->];
    (apply elem_of_cons in H2 as [->|H2]; [|apply list_elem_of_singleton in H2 as ->]);
    simpl; intros Hk; try done; unfold mean_of; vm_compute;
    intros [= <-] [= <-]; discriminate.
Qed.

Lemma scenario_first_bin :
  (4%Z, [Scenario.r1; Scenario.r2]) ∈ binResultsBy Scenario.results Scenario.nb.
Proof. vm_compute. left. Qed.

Lemma floats_wf : dict_wf Floats.bins.
Proof.
  unfold dict_wf, dict_keys, Floats.bins. cbn.
  apply NoDup_cons. split; [|apply NoDup_singleton].
  by intros [=]%list_elem_of_singleton.
Qed.

Lemma floats_not_nil : Floats.bins ≠ [].
Proof. discriminate. Qed.

Lemma floats_has_mean : ∀ b, b ∈ Floats.bins → has_mean (λ v, v) b.2.
Proof.
  intros b Hb. unfold Floats.bins in Hb.
  apply elem_of_cons in Hb as [->|Hb]; [|apply list_elem_of_singleton in Hb as ->];
    eexists; unfold mean_of; vm_compute; reflexivity.
Qed.

Lemma binResultsBy_stable_witness :
  (4%Z, [Scenario.r1; Scenario.r2]) ∈ binResultsBy Scenario.results Scenario.nb ∧
  [Scenario.r1; Scenario.r2]
  = filter (λ r, Scenario.nb r = 4%Z) Scenario.results ∧
  [Scenario.r1; Scenario.r2] `sublist_of` Scenario.results.
Proof.
  split; [exact scenario_first_bin|].
  exact (binResultsBy_stable Scenario.results Scenario.nb 4%Z _ scenario_first_bin).
Defined.

Lemma binResultsBy_bins_nonempty_witness :
  (4%Z, [Scenario.r1; Scenario.r2]) ∈ binResultsBy Scenario.results Scenario.nb ∧
  [Scenario.r1; Scenario.r2] ≠ [].
Proof.
  split; [exact scenario_first_bin|].
  exact (binResultsBy_bins_nonempty Scenario.results Scenario.nb 4%Z _
           scenario_first_bin).
Defined.


Lemma minMaxAvgPerBin_empty_bin_witness :
  (8%Z, []) ∈ [(4%Z, [Scenario.r1]); (8%Z, [])] ∧
  ∃ e, minMaxAvgPerBin [(4%Z, [Scenario.r1]); (8%Z, [])] Scenario.time = Raise e ∧
       (e = ValueError ∨ e = OverflowError).
Proof.
  assert ((8%Z, []) ∈ [(4%Z, [Scenario.r1]); (8%Z, @nil Scenario.sample)]) as Hin.
  { right. left. }
  split; [exact Hin|].
  exact (proj1 (minMaxAvgPerBin_empty_bin _ Scenario.time 8%Z Hin)).
Defined.

Lemma getBestBin_tie_break_witness :
  dict_wf Floats.bins ∧
  Floats.bins ≠ [] ∧
  (∀ b, b ∈ Floats.bins → has_mean (λ v, v) b.2) ∧
  ∃ pre k l m post, Floats.bins = pre ++ (k, l) :: post ∧
    mean_of (λ v, v) l m ∧
    getBestBin Floats.bins (λ v, v) true = Ok k ∧
    (∀ b m', b ∈ Floats.bins → mean_of (λ v, v) b.2 m' →
       ¬ better true (num_val m') (num_val m)) ∧
    (∀ b m', b ∈ pre → mean_of (λ v, v) b.2 m' →
       better true (num_val m) (num_val m') ∧
       ¬ (num_val m' == num_val m)%Q).
Proof.
  split; [exact floats_wf|]. split; [exact floats_not_nil|].
  split; [exact floats_has_mean|].
  exact (getBestBin_tie_break Floats.bins (λ v, v) true
           floats_wf floats_not_nil floats_has_mean).
Defined.

Lemma getBestBin_direction_witness :
  dict_wf Scenario.bins ∧
  Scenario.bins ≠ [] ∧
  (∀ b, b ∈ Scenario.bins → has_mean Scenario.time b.2) ∧
  (∀ b1 b2 m1 m2, b1 ∈ Scenario.bins → b2 ∈ Scenario.bins → b1.1 ≠ b2.1 →
     mean_of Scenario.time b1.2 m1 → mean_of Scenario.time b2.2 m2 →
     ¬ (num_val m1 == num_val m2)%Q) ∧
  (∃ k l m, (k, l) ∈ Scenario.bins ∧ mean_of Scenario.time l m ∧
     getBestBin Scenario.bins Scenario.time true = Ok k ∧
     ∀ b m', b ∈ Scenario.bins → b.1 ≠ k → mean_of Scenario.time b.2 m' →
       (num_val m < num_val m')%Q) ∧
  (∃ k l m, (k, l) ∈ Scenario.bins ∧ mean_of Scenario.time l m ∧
     getBestBin Scenario.bins Scenario.time false = Ok k ∧
     ∀ b m', b ∈ Scenario.bins → b.1 ≠ k → mean_of Scenario.time b.2 m' →
       (num_val m' < num_val m)%Q).
Proof.
  split; [exact scenario_wf|]. split; [exact scenario_not_nil|].
  split; [exact scenario_has_mean|]. split; [exact scenario_distinct|].
  exact (getBestBin_direction Scenario.bins Scenario.time
           scenario_wf scenario_not_nil scenario_has_mean scenario_distinct).
Defined.

(** ** Further properties of [binResultsBy] *)

Section BinOrder.
Context {K : Type} `{EqDecision K} {R : Type}.
Implicit Types (k : K) (r : R) (l results : list R) (d : list (K * list R)).
Implicit Types (binningFunction : R → K).

Lemma first_occurrences_snoc (ks : list K) k :
  reverse (remove_dups (reverse (ks ++ [k])))
  = if decide (k ∈ ks) then reverse (remove_dups (reverse ks))
    else reverse (remove_dups (reverse ks)) ++ [k].
Proof.
  rewrite reverse_snoc. cbn [remove_dups]. unfold decide_rel.
  destruct (list_elem_of_dec k (reverse ks)) as [Hin|Hnin].
  - rewrite decide_True; [done|]. by apply elem_of_reverse.
  - rewrite decide_False; [by rewrite reverse_cons|]. by rewrite <-elem_of_reverse.
Qed.

(** The bins are listed in the order in which their keys first occur in the
    input: the key list is the list of the records' keys with every repeated
    occurrence of a key removed. *)
Theorem binResultsBy_key_order results binningFunction :
  dict_keys (binResultsBy results binningFunction)
  = reverse (remove_dups (reverse (binningFunction <$> results))).
Proof.
  induction results as [|r results IH] using rev_ind; [done|].
  rewrite binResultsBy_snoc. unfold bin_step.
  rewrite dict_keys_mutate, dict_keys_missing.
  rewrite fmap_app. cbn [fmap list_fmap]. rewrite first_occurrences_snoc, <-IH.
  assert (binningFunction r ∈ binningFunction <$> results
          ↔ binningFunction r ∈ dict_keys (binResultsBy results binningFunction))
    as Hiff.
  { rewrite IH. by rewrite elem_of_reverse, elem_of_remove_dups, elem_of_reverse. }
  destruct (dict_get (binningFunction r) _) as [l|] eqn:Hg.
  - rewrite decide_True; [done|]. apply Hiff.
    apply dict_get_elem_of in Hg. apply (list_elem_of_fmap_2 fst _ _ Hg).
  - rewrite decide_False; [done|]. rewrite Hiff. by apply dict_get_None.
Qed.

Lemma dict_mutate_last (g : list R → list R) k l0 d :
  k ∉ dict_keys d →
  dict_mutate g k (d ++ [(k, l0)]) = d ++ [(k, g l0)].
Proof.
  unfold dict_keys. induction d as [|[k' l'] d IH]; simpl.
  - intros _. by rewrite decide_True.
  - rewrite not_elem_of_cons. intros [Hne Hnin].
    rewrite decide_False by done. by rewrite IH.
Qed.

Lemma dict_get_last k l0 d :
  k ∉ dict_keys d → dict_get k (d ++ [(k, l0)]) = Some l0.
Proof.
  intros Hnin. rewrite dict_get_snoc.
  apply dict_get_None in Hnin as ->. by rewrite decide_True.
Qed.

(** Records of key [k] that arrive while [k] is the last bin are appended
    to that bin and leave the other bins alone. *)
Lemma fold_bin_step_last binningFunction k l l0 d :
  k ∉ dict_keys d →
  (∀ r, r ∈ l → binningFunction r = k) →
  fold_left (bin_step binningFunction) l (d ++ [(k, l0)]) = d ++ [(k, l0 ++ l)].
Proof.
  intros Hnin. revert l0. induction l as [|r l IH]; intros l0 Hall.
  - by rewrite app_nil_r.
  - cbn [fold_left]. unfold bin_step at 2. rewrite (Hall r) by left.
    unfold defaultdict_missing. rewrite dict_get_last by done.
    rewrite dict_mutate_last by done. rewrite IH.
    + by rewrite <-app_assoc.
    + intros r' Hr'. apply Hall. by right.
Qed.

Lemma fold_bin_step_new binningFunction k r l d :
  k ∉ dict_keys d →
  (∀ r', r' ∈ r :: l → binningFunction r' = k) →
  fold_left (bin_step binningFunction) (r :: l) d = d ++ [(k, r :: l)].
Proof.
  intros Hnin Hall. cbn [fold_left]. unfold bin_step at 2.
  rewrite (Hall r) by left. unfold defaultdict_missing.
  pose proof Hnin as Hnone. apply dict_get_None in Hnone. rewrite Hnone.
  rewrite dict_mutate_last by done. cbn [app].
  apply (fold_bin_step_last binningFunction k l [r] d Hnin).
  intros r' Hr'. apply Hall. by right.
Qed.

(** Binning a mapping that is already binned by the same key function, read
    bin after bin, gives that mapping back. *)
Lemma rebin_binned binningFunction d :
  dict_wf d →
  (∀ k l, (k, l) ∈ d → l ≠ [] ∧ ∀ r, r ∈ l → binningFunction r = k) →
  binResultsBy (concat d.*2) binningFunction = d.
Proof.
  unfold dict_wf, dict_keys.
  induction d as [|[k l] d IH] using rev_ind; intros Hwf Hbins; [done|].
  rewrite fmap_app, concat_app. cbn [fmap list_fmap concat]. rewrite app_nil_r.
  unfold binResultsBy. rewrite fold_left_app.
  fold (binResultsBy (concat d.*2) binningFunction).
  rewrite fmap_app in Hwf. apply NoDup_app in Hwf as (Hwf & Hdisj & _).
  rewrite IH; [|done|].
  2:{ intros k' l' Hin. apply Hbins, elem_of_app. by left. }
  destruct (Hbins k l) as [Hne Hkey].
  { apply elem_of_app. right. left. }
  destruct l as [|r l]; [done|].
  apply fold_bin_step_new; [|done].
  intros Hin. apply (Hdisj k Hin). cbn. left.
Qed.

(** Round trip: flattening the bins in iteration order and binning again by
    the same key function reproduces the mapping. *)
Theorem binResultsBy_rebin results binningFunction :
  binResultsBy (concat (binResultsBy results binningFunction).*2) binningFunction
  = binResultsBy results binningFunction.
Proof.
  apply rebin_binned; [apply binResultsBy_wf|].
  intros k l [-> Hne]%binResultsBy_elem_of. split; [done|].
  by intros r [? _]%list_elem_of_filter.
Qed.

(** When every record has the same key there is one bin and it is the
    input list. *)
Theorem binResultsBy_single_key results binningFunction k :
  results ≠ [] →
  (∀ r, r ∈ results → binningFunction r = k) →
  binResultsBy results binningFunction = [(k, results)].
Proof.
  intros Hne Hall. destruct results as [|r results]; [done|].
  apply (fold_bin_step_new binningFunction k r results []); [|done].
  apply not_elem_of_nil.
Qed.
End BinOrder.

(** ** Outcomes of [minMaxAvgPerBin] and [getBestBin] on any mapping *)

Section Outcomes.
Context {K : Type} `{EqDecision K} {R : Type}.
Implicit Types (k : K) (l results : list R) (statFunction : R → num).
Implicit Types (binningFunction : R → K).
Implicit Types (items bins : list (K * list R)).
Implicit Types (acc stats : list (K * (num * num * num))).
Open Scope Q_scope.

(** For a value function that returns numbers, [minMaxAvgPerBin] either
    returns statistics for exactly the keys of the mapping, and then every
    bin has a mean, or raises [ValueError], and then some bin is empty, or
    raises [OverflowError], and then the mean of some non-empty bin is too
    large for a float. *)
Theorem minMaxAvgPerBin_outcome bins statFunction :
  match minMaxAvgPerBin bins statFunction with
  | Ok stats =>
      (∀ b, b ∈ bins → has_mean statFunction b.2) ∧
      (∀ k, k ∈ dict_keys stats ↔ k ∈ dict_keys bins)
  | Raise e =>
      (e = ValueError ∧ ∃ k, (k, []) ∈ bins) ∨
      (e = OverflowError ∧
       ∃ b, b ∈ bins ∧ b.2 ≠ [] ∧
            statistics_mean (statFunction <$> b.2) = Raise OverflowError)
  end.
Proof.
  unfold minMaxAvgPerBin.
  destruct (minMaxAvg_loop statFunction bins []) as [stats|e] eqn:Hloop.
  - split; [by eapply minMaxAvg_loop_Ok_has_mean|].
    intros k. rewrite (minMaxAvg_loop_keys _ _ _ _ Hloop k).
    split; [intros [Hin|?]; [by apply elem_of_nil in Hin|done]|by right].
  - by apply minMaxAvg_loop_raises in Hloop.
Qed.

(** For a value function that returns numbers, [getBestBin] returns a key
    of the mapping, and then every bin has a mean; or it raises
    [IndexError], exactly on the empty mapping; or [ValueError], and then
    some bin is empty; or [OverflowError], and then the mean of some
    non-empty bin is too large for a float.  The subscript of
    [minMaxAvg.get(x)] never fails. *)
Theorem getBestBin_outcome bins statFunction lowerIsBetter :
  match getBestBin bins statFunction lowerIsBetter with
  | Ok k => k ∈ dict_keys bins ∧ ∀ b, b ∈ bins → has_mean statFunction b.2
  | Raise e =>
      (e = IndexError ∧ bins = []) ∨
      (e = ValueError ∧ ∃ k, (k, []) ∈ bins) ∨
      (e = OverflowError ∧
       ∃ b, b ∈ bins ∧ b.2 ≠ [] ∧
            statistics_mean (statFunction <$> b.2) = Raise OverflowError)
  end.
Proof.
  destruct bins as [|b0 bins].
  { rewrite getBestBin_nil. by left. }
  destruct (minMaxAvgPerBin (b0 :: bins) statFunction) as [stats|e] eqn:Hok.
  - destruct (getBestBin_Ok (b0 :: bins) statFunction lowerIsBetter stats Hok)
      as (k & -> & Hin); [done|].
    split; [done|]. by eapply minMaxAvg_loop_Ok_has_mean.
  - rewrite (getBestBin_Raise _ _ _ _ Hok). right.
    by apply minMaxAvg_loop_raises in Hok.
Qed.

Lemma binned_has_mean_inv results binningFunction statFunction stats :
  minMaxAvgPerBin (binResultsBy results binningFunction) statFunction = Ok stats →
  Forall2 (λ b s, s.1 = b.1 ∧ bin_stats statFunction b.2 s.2)
    (binResultsBy results binningFunction) stats.
Proof. apply minMaxAvgPerBin_Ok_inv, binResultsBy_wf. Qed.

Lemma binned_raises results binningFunction statFunction e :
  minMaxAvgPerBin (binResultsBy results binningFunction) statFunction = Raise e →
  e = OverflowError ∧ results ≠ [] ∧
  ∃ k, statistics_mean (statFunction <$> filter (λ r, binningFunction r = k) results)
       = Raise OverflowError.
Proof.
  intros [[_ [k Hk]]|[-> ([k l] & Hb & Hne & Hov)]]%minMaxAvg_loop_raises.
  - by apply binResultsBy_elem_of in Hk as [_ ?].
  - apply binResultsBy_elem_of in Hb as [-> _]. split; [done|].
    split; [by intros ->|]. by exists k.
Qed.

(** After binning, aggregation cannot fail on an empty bin.  Either it
    returns the statistics, with the keys of the bins in the same order,
    the triple stored under a key being the one of the input records that
    have this key, and a key that no record has being absent; or it raises
    [OverflowError], because the mean of the records of some key is too
    large for a float. *)
Theorem minMaxAvgPerBin_after_binning results binningFunction statFunction :
  match minMaxAvgPerBin (binResultsBy results binningFunction) statFunction with
  | Ok stats =>
      dict_keys stats = dict_keys (binResultsBy results binningFunction) ∧
      ∀ k, match dict_get k stats with
           | Some t =>
               filter (λ r, binningFunction r = k) results ≠ [] ∧
               bin_stats statFunction (filter (λ r, binningFunction r = k) results) t
           | None => filter (λ r, binningFunction r = k) results = []
           end
  | Raise e =>
      e = OverflowError ∧
      ∃ k, statistics_mean
             (statFunction <$> filter (λ r, binningFunction r = k) results)
           = Raise OverflowError
  end.
Proof.
  destruct (minMaxAvgPerBin _ _) as [stats|e] eqn:Hok.
  - pose proof (binned_has_mean_inv _ _ _ _ Hok) as Hall.
    pose proof (stats_keys _ _ _ Hall) as Hkeys. split; [done|]. intros k.
    destruct (dict_get k stats) as [t|] eqn:Hget.
    + apply dict_get_elem_of in Hget.
      destruct (bin_of_stats _ _ _ _ _ Hall Hget) as (l & Hb & Hs).
      apply binResultsBy_elem_of in Hb as [-> Hne]. by split.
    + apply dict_get_None in Hget. rewrite Hkeys in Hget.
      destruct (filter _ results) as [|r0 l0] eqn:Hf; [done|]. exfalso. apply Hget.
      assert ((k, r0 :: l0) ∈ binResultsBy results binningFunction) as Hin.
      { apply binResultsBy_elem_of. by rewrite Hf. }
      apply (list_elem_of_fmap_2 fst _ _ Hin).
  - apply binned_raises in Hok as (-> & _ & Hk). by split.
Qed.

Lemma binned_key_of_record results binningFunction k :
  k ∈ dict_keys (binResultsBy results binningFunction) →
  ∃ r, r ∈ results ∧ binningFunction r = k.
Proof.
  intros ([k' l] & -> & Hin)%list_elem_of_fmap.
  apply binResultsBy_elem_of in Hin as [-> Hne].
  destruct (filter _ results) as [|r l'] eqn:Hf; [done|].
  assert (r ∈ filter (λ r, binningFunction r = k') results) as Hr.
  { rewrite Hf. left. }
  apply list_elem_of_filter in Hr as [? ?]. by exists r.
Qed.

Lemma binResultsBy_not_nil results binningFunction :
  results ≠ [] → binResultsBy results binningFunction ≠ [].
Proof.
  intros Hres Hnil. pose proof (binResultsBy_concat results binningFunction) as Hp.
  rewrite Hnil in Hp. by apply Permutation_nil_l in Hp.
Qed.

(** The pipeline bin-then-select returns the key of some input record; or
    it raises [IndexError], exactly when there is no record; or
    [OverflowError], when the mean of the records of some key is too large
    for a float. *)
Theorem getBestBin_after_binning results binningFunction statFunction lowerIsBetter :
  match getBestBin (binResultsBy results binningFunction) statFunction lowerIsBetter with
  | Ok k => ∃ r, r ∈ results ∧ binningFunction r = k
  | Raise e =>
      (e = IndexError ∧ results = []) ∨
      (e = OverflowError ∧ results ≠ [] ∧
       ∃ k, statistics_mean
              (statFunction <$> filter (λ r, binningFunction r = k) results)
            = Raise OverflowError)
  end.
Proof.
  destruct results as [|r0 results].
  { unfold binResultsBy. cbn [fold_left]. rewrite getBestBin_nil. by left. }
  destruct (minMaxAvgPerBin (binResultsBy (r0 :: results) binningFunction) statFunction)
    as [stats|e] eqn:Hok.
  - destruct (getBestBin_Ok _ statFunction lowerIsBetter stats Hok) as (k & -> & Hin).
    { by apply binResultsBy_not_nil. }
    by apply binned_key_of_record.
  - rewrite (getBestBin_Raise _ _ _ _ Hok). right. by apply binned_raises in Hok.
Qed.

Lemma binned_doubles_Ok results binningFunction statFunction :
  (∀ r, r ∈ results → is_double (num_val (statFunction r))) →
  ∃ stats,
    minMaxAvgPerBin (binResultsBy results binningFunction) statFunction = Ok stats.
Proof.
  intros Hdbl.
  destruct (minMaxAvgPerBin_ok statFunction (binResultsBy results binningFunction))
    as (stats & Hok & _); [apply binResultsBy_wf| |by exists stats].
  intros [k l] [-> Hne]%binResultsBy_elem_of.
  destruct (py_min_Ok (statFunction <$> filter (λ r, binningFunction r = k) results))
    as [mn Hmn]; [by destruct (filter _ results)|].
  destruct (py_max_Ok (statFunction <$> filter (λ r, binningFunction r = k) results))
    as [mx Hmx]; [by destruct (filter _ results)|].
  destruct (py_min_spec _ _ Hmn) as [(rmn & Emn & Hrmn)%list_elem_of_fmap Hmn_le].
  destruct (py_max_spec _ _ Hmx) as [(rmx & Emx & Hrmx)%list_elem_of_fmap Hmx_le].
  apply list_elem_of_filter in Hrmn as [_ Hrmn].
  apply list_elem_of_filter in Hrmx as [_ Hrmx].
  destruct (statistics_mean_between
              (statFunction <$> filter (λ r, binningFunction r = k) results)
              (num_val mn) (num_val mx)) as (avg & Havg & _).
  - simpl. by destruct (filter _ results).
  - rewrite Emn. by apply Hdbl.
  - rewrite Emx. by apply Hdbl.
  - intros v Hv. split; [by apply Hmn_le|by apply Hmx_le].
  - by exists avg.
Qed.

(** When every value of the statistic is a binary64 value (a float, or an
    int of magnitude at most [2 ^ 53]) and there is a record, the pipeline
    bin-then-select cannot fail: it returns the key of some input
    record. *)
Theorem getBestBin_after_binning_doubles results binningFunction statFunction
    lowerIsBetter :
  results ≠ [] →
  (∀ r, r ∈ results → is_double (num_val (statFunction r))) →
  ∃ k r, getBestBin (binResultsBy results binningFunction) statFunction lowerIsBetter
         = Ok k ∧ r ∈ results ∧ binningFunction r = k.
Proof.
  intros Hres Hdbl.
  destruct (binned_doubles_Ok results binningFunction statFunction Hdbl) as [stats Hok].
  destruct (getBestBin_Ok _ statFunction lowerIsBetter stats Hok) as (k & Hbest & Hin).
  { by apply binResultsBy_not_nil. }
  destruct (binned_key_of_record _ _ _ Hin) as (r & Hr & Hk). by exists k, r.
Qed.

Lemma Forall2_elem_of_r {A B} (P : A → B → Prop) (xs : list A) (ys : list B) y :
  Forall2 P xs ys → y ∈ ys → ∃ x, x ∈ xs ∧ P x y.
Proof.
  induction 1 as [|x' y' xs ys Hp _ IH]; intros Hin.
  - by apply elem_of_nil in Hin.
  - apply elem_of_cons in Hin as [->|Hin].
    + exists x'. split; [left|done].
    + destruct (IH Hin) as (x & Hx & Hpx). exists x. split; [by right|done].
Qed.

(** When the computed means of all the bins are equal, the first key of the
    mapping is returned, whatever the flag. *)
Theorem getBestBin_all_tied k l m bins statFunction lowerIsBetter :
  dict_wf ((k, l) :: bins) →
  mean_of statFunction l m →
  (∀ b, b ∈ bins → ∃ m', mean_of statFunction b.2 m' ∧ num_val m' == num_val m) →
  getBestBin ((k, l) :: bins) statFunction lowerIsBetter = Ok k.
Proof.
  intros Hwf Hm Htie.
  destruct (minMaxAvgPerBin_ok statFunction ((k, l) :: bins) Hwf) as (stats & Hok & Hall).
  { intros b [->|Hb]%elem_of_cons; [by exists m|].
    destruct (Htie b Hb) as (m' & Hm' & _). by exists m'. }
  apply Forall2_cons_inv_l in Hall as ([k' t] & rest & [Hk (_ & _ & Ht)] & Hrest & ->).
  simpl in Hk, Ht. subst k'.
  apply (getBestBin_stats_split _ statFunction lowerIsBetter _ [] k t rest Hok);
    [done| |].
  - intros s Hs. by apply elem_of_nil in Hs.
  - intros s Hs Hbetter.
    destruct (Forall2_elem_of_r _ _ _ _ Hrest Hs) as (b & Hb & _ & _ & _ & Hms).
    destruct (Htie b Hb) as (m' & Hm' & Heq).
    unfold mean_of in Hm, Hm'. rewrite Hm' in Hms. injection Hms as Hms.
    rewrite Hm in Ht. injection Ht as Ht. rewrite <-Hms, <-Ht in Hbetter.
    destruct lowerIsBetter; simpl in Hbetter; rewrite Heq in Hbetter;
      by apply Qlt_irrefl in Hbetter.
Qed.
End Outcomes.

(** ** The main program *)

Section MainFacts.
Context {K : Type} `{EqDecision K} {R : Type}.
Variable rendData : string → option (list R).
Variable keyOf : getter → R → K.
Variable valueOf : getter → R → num.
Variable str : K → string.
Variable pformat_bins : list (K * list R) → string.
Variable pformat_stats : list (K * (num * num * num)) → string.
Variable can_open : string → bool.
Implicit Types (args : Namespace) (results : list R) (trace : list event).

Local Abbreviation program :=
  (main rendData keyOf valueOf str pformat_bins pformat_stats can_open).
Local Abbreviation report_of := (report str pformat_bins pformat_stats).

(** A normal end of [main], unfolded. *)
Lemma main_normal args trace :
  program args = (trace, None) →
  ∃ binFunc statFunc results minMaxAvg bestBin,
    dict_get (bin args) NameToGetter = Some binFunc ∧
    dict_get (statistic args) NameToGetter = Some statFunc ∧
    rendData (input args) = Some results ∧
    minMaxAvgPerBin (binResultsBy results (keyOf binFunc)) (valueOf statFunc)
    = Ok minMaxAvg ∧
    getBestBin (binResultsBy results (keyOf binFunc)) (valueOf statFunc)
      (bool_decide (statFunc = getTime)) = Ok bestBin ∧
    (∀ path, output_path (output args) = Some path → can_open path = true) ∧
    trace = report_of args (binResultsBy results (keyOf binFunc)) minMaxAvg bestBin.
Proof.
  unfold main.
  destruct (dict_get (bin args) NameToGetter) as [binFunc|]; [|done].
  destruct (dict_get (statistic args) NameToGetter) as [statFunc|]; [|done].
  destruct (rendData (input args)) as [results|]; [|done]. cbv zeta.
  destruct (minMaxAvgPerBin _ _) as [minMaxAvg|] eqn:Hmma; [|done].
  destruct (getBestBin _ _ _) as [bestBin|] eqn:Hbest; [|done].
  destruct (output_path (output args)) as [path|] eqn:Hout.
  - destruct (can_open path) eqn:Hopen; [|done]. intros [= <-].
    exists binFunc, statFunc, results, minMaxAvg, bestBin.
    split_and!; [done..| |done]. by intros ? [= <-].
  - intros [= <-]. by exists binFunc, statFunc, results, minMaxAvg, bestBin.
Qed.

(** The direction of the selection: lower is better exactly for the
    statistic named [time]; for every other name of the table, higher is
    better. *)
Theorem NameToGetter_lower_is_better name (statFunc : getter) :
  dict_get name NameToGetter = Some statFunc →
  bool_decide (statFunc = getTime) = true ↔ name = "time"%string.
Proof.
  unfold NameToGetter. cbn [dict_get].
  repeat (destruct (decide (name = _)) as [->|?];
          [intros [= <-]; split; intros Hx; [by apply bool_decide_eq_true in Hx|done]|]).
  done.
Qed.

(** How [main] ends.  When it ends normally, both option values are names
    of the table, the parser returned a non-empty result list and, with a
    non-empty [-o] value, the file could be opened.  Otherwise it has done
    nothing to the outside (no file opened, no line written): an option
    value is not in the table, or the parser failed, or the analysis
    raised [IndexError], which it does exactly on an empty result list, or
    [OverflowError], or the file could not be opened. *)
Theorem main_outcome args :
  match program args with
  | (trace, None) =>
      ∃ binFunc statFunc results,
        dict_get (bin args) NameToGetter = Some binFunc ∧
        dict_get (statistic args) NameToGetter = Some statFunc ∧
        rendData (input args) = Some results ∧ results ≠ [] ∧
        ∀ path, output_path (output args) = Some path → can_open path = true
  | (trace, Some fail) =>
      trace = [] ∧
      match fail with
      | InvalidChoice =>
          dict_get (bin args) NameToGetter = None ∨
          dict_get (statistic args) NameToGetter = None
      | RendFailed => rendData (input args) = None
      | AnalysisRaised e =>
          (e = IndexError ∧ rendData (input args) = Some []) ∨
          (e = OverflowError ∧
           ∃ results, rendData (input args) = Some results ∧ results ≠ [])
      | OpenFailed =>
          ∃ path, output_path (output args) = Some path ∧ can_open path = false
      end
  end.
Proof.
  unfold main.
  destruct (dict_get (bin args) NameToGetter) as [binFunc|]; [|by split; [|left]].
  destruct (dict_get (statistic args) NameToGetter) as [statFunc|]; [|by split; [|right]].
  destruct (rendData (input args)) as [results|]; [|done]. cbv zeta.
  destruct (minMaxAvgPerBin _ _) as [minMaxAvg|e] eqn:Hmma.
  2:{ split; [done|]. right. apply binned_raises in Hmma as (-> & Hne & _).
      split; [done|]. by exists results. }
  destruct results as [|r results].
  { unfold binResultsBy. cbn [fold_left]. rewrite getBestBin_nil. split; [done|by left]. }
  destruct (getBestBin_Ok _ (valueOf statFunc) (bool_decide (statFunc = getTime))
              minMaxAvg Hmma) as (k & -> & _).
  { by apply binResultsBy_not_nil. }
  destruct (output_path (output args)) as [path|] eqn:Hout.
  - destruct (can_open path) eqn:Hopen.
    + exists binFunc, statFunc, (r :: results). split_and!; [done..|].
      by intros ? [= <-].
    + split; [done|]. by exists path.
  - by exists binFunc, statFunc, (r :: results).
Qed.

(** The events of a normal run.  With a non-empty [-o] value the file is
    opened first and once, every line goes to it, nothing is printed, and
    the file is closed last; with no (or an empty) [-o] value every line
    is printed and no file is touched. *)
Theorem main_trace args trace :
  program args = (trace, None) →
  trace = match output_path (output args) with
          | Some path => EvOpen path :: (EvFileLine <$> lines_of trace) ++ [EvClose]
          | None => EvPrint <$> lines_of trace
          end.
Proof.
  intros (binFunc & statFunc & results & minMaxAvg & bestBin
          & _ & _ & _ & _ & _ & _ & ->)%main_normal.
  unfold report.
  destruct (output_path (output args)) as [path|]; destruct (verbose args); reflexivity.
Qed.

(** The text of the report does not depend on where it goes: two normal
    runs that differ in the [-o] value only pass the same strings to
    [write]. *)
Theorem main_lines_any_destination args args' trace trace' :
  input args = input args' →
  bin args = bin args' →
  statistic args = statistic args' →
  verbose args = verbose args' →
  program args = (trace, None) →
  program args' = (trace', None) →
  lines_of trace = lines_of trace'.
Proof.
  intros Hi Hb Hs Hv
    (binFunc & statFunc & results & minMaxAvg & bestBin
     & Hbin & Hstat & Hrend & Hmma & Hbest & _ & ->)%main_normal
    (binFunc' & statFunc' & results' & minMaxAvg' & bestBin'
     & Hbin' & Hstat' & Hrend' & Hmma' & Hbest' & _ & ->)%main_normal.
  rewrite <-Hi in Hrend'. rewrite <-Hb in Hbin'. rewrite <-Hs in Hstat'.
  assert (binFunc' = binFunc) as -> by congruence.
  assert (statFunc' = statFunc) as -> by congruence.
  assert (results' = results) as -> by congruence.
  assert (minMaxAvg' = minMaxAvg) as -> by congruence.
  assert (bestBin' = bestBin) as -> by congruence.
  unfold report. rewrite <-Hi, <-Hb, <-Hs, <-Hv.
  destruct (output_path (output args)); destruct (output_path (output args'));
    destruct (verbose args); reflexivity.
Qed.

(** A normal run calls [write] 9 times, or 14 times with [-v]; the last
    string written is the text of the best bin, which is the key of some
    record of the input. *)
Theorem main_report_lines args trace :
  program args = (trace, None) →
  length (lines_of trace) = (if verbose args then 14 else 9)%nat ∧
  ∃ binFunc results r,
    dict_get (bin args) NameToGetter = Some binFunc ∧
    rendData (input args) = Some results ∧
    r ∈ results ∧
    last (lines_of trace) = Some (str (keyOf binFunc r)).
Proof.
  intros (binFunc & statFunc & results & minMaxAvg & bestBin
          & Hbin & Hstat & Hrend & Hmma & Hbest & _ & ->)%main_normal.
  assert (∃ r, r ∈ results ∧ keyOf binFunc r = bestBin) as (r & Hr & <-).
  { destruct results as [|r0 results].
    - unfold binResultsBy in Hbest. cbn [fold_left] in Hbest.
      by rewrite getBestBin_nil in Hbest.
    - destruct (getBestBin_Ok _ (valueOf statFunc) (bool_decide (statFunc = getTime))
                  minMaxAvg Hmma) as (k & Hk & Hin).
      { by apply binResultsBy_not_nil. }
      rewrite Hk in Hbest. injection Hbest as <-.
      by apply binned_key_of_record in Hin. }
  split.
  - unfold report.
    destruct (output_path (output args)); destruct (verbose args); reflexivity.
  - exists binFunc, results, r. split_and!; [done..|].
    unfold report.
    destruct (output_path (output args)); destruct (verbose args); reflexivity.
Qed.

(** [-v] only adds lines: the lines of the run without [-v] are, in order,
    among the lines of the run with [-v] on the same other arguments. *)
Theorem main_verbose_adds args args' :
  input args = input args' →
  bin args = bin args' →
  statistic args = statistic args' →
  output args = output args' →
  verbose args = false →
  verbose args' = true →
  lines_of (program args).1 `sublist_of` lines_of (program args').1.
Proof.
  intros Hi Hb Hs Ho Hv Hv'. unfold main. rewrite <-Hi, <-Hb, <-Hs, <-Ho.
  destruct (dict_get (bin args) NameToGetter) as [binFunc|]; [|done].
  destruct (dict_get (statistic args) NameToGetter) as [statFunc|]; [|done].
  destruct (rendData (input args)) as [results|]; [|done]. cbv zeta.
  destruct (minMaxAvgPerBin _ _) as [minMaxAvg|]; [|done].
  destruct (getBestBin _ _ _) as [bestBin|]; [|done].
  assert (lines_of (report_of args (binResultsBy results (keyOf binFunc))
                      minMaxAvg bestBin)
          `sublist_of`
          lines_of (report_of args' (binResultsBy results (keyOf binFunc))
                      minMaxAvg bestBin)) as Hsub.
  { unfold report. rewrite <-Hi, <-Hb, <-Hs, <-Ho, Hv, Hv'.
    destruct (output_path (output args));
      cbn [write app omap list_omap lines_of line_of];
      (apply sublist_skip; do 2 apply sublist_cons; do 3 apply sublist_skip;
       do 3 apply sublist_cons; by do 5 apply sublist_skip). }
  destruct (output_path (output args)) as [path|]; [|done].
  by destruct (can_open path).
Qed.
End MainFacts.

(** ** The further properties at the scenarios *)

Lemma binResultsBy_single_key_witness :
  [Scenario.r1; Scenario.r2] ≠ [] ∧
  (∀ r, r ∈ [Scenario.r1; Scenario.r2] → Scenario.nb r = 4%Z) ∧
  binResultsBy [Scenario.r1; Scenario.r2] Scenario.nb
  = [(4%Z, [Scenario.r1; Scenario.r2])].
Proof.
  assert ([Scenario.r1; Scenario.r2] ≠ []) as Hne by discriminate.
  assert (∀ r, r ∈ [Scenario.r1; Scenario.r2] → Scenario.nb r = 4%Z) as Hkey.
  { intros r Hr. apply elem_of_cons in Hr as [->|Hr]; [reflexivity|].
    apply list_elem_of_singleton in Hr as ->. reflexivity. }
  split; [exact Hne|]. split; [exact Hkey|].
  exact (binResultsBy_single_key _ Scenario.nb 4%Z Hne Hkey).
Defined.

Lemma scenario_results_doubles :
  ∀ r, r ∈ Scenario.results → is_double (num_val (Scenario.time r)).
Proof.
  intros r Hr. unfold Scenario.results in Hr.
  repeat (apply elem_of_cons in Hr as [->|Hr]; [apply is_double_int; simpl; lia|]).
  by apply elem_of_nil in Hr.
Qed.

Lemma getBestBin_after_binning_doubles_witness :
  Scenario.results ≠ [] ∧
  (∀ r, r ∈ Scenario.results → is_double (num_val (Scenario.time r))) ∧
  ∃ k r, getBestBin (binResultsBy Scenario.results Scenario.nb) Scenario.time true
         = Ok k ∧ r ∈ Scenario.results ∧ Scenario.nb r = k.
Proof.
  assert (Scenario.results ≠ []) as Hne by discriminate.
  split; [exact Hne|]. split; [exact scenario_results_doubles|].
  exact (getBestBin_after_binning_doubles Scenario.results Scenario.nb
           Scenario.time true Hne scenario_results_doubles).
Defined.

Lemma tied_wf : dict_wf MainScenario.tied.
Proof.
  unfold dict_wf, dict_keys, MainScenario.tied. cbn.
  apply NoDup_cons. split; [|apply NoDup_singleton].
  by intros [=]%list_elem_of_singleton.
Qed.

Lemma tied_first_mean :
  mean_of Scenario.time [ {| Scenario.nb := 8; Scenario.time := PyInt 7 |} ] (PyInt 7).
Proof. reflexivity. Qed.

Lemma tied_means :
  ∀ b, b ∈ [ (4%Z, [ {| Scenario.nb := 4; Scenario.time := PyInt 7 |} ]) ] →
    ∃ m', mean_of Scenario.time b.2 m' ∧ (num_val m' == num_val (PyInt 7))%Q.
Proof. intros b ->%list_elem_of_singleton. by exists (PyInt 7). Qed.

Lemma getBestBin_all_tied_witness :
  dict_wf MainScenario.tied ∧
  mean_of Scenario.time [ {| Scenario.nb := 8; Scenario.time := PyInt 7 |} ] (PyInt 7) ∧
  getBestBin MainScenario.tied Scenario.time false = Ok 8%Z.
Proof.
  split; [exact tied_wf|]. split; [exact tied_first_mean|].
  exact (getBestBin_all_tied 8%Z _ (PyInt 7) _ Scenario.time false
           tied_wf tied_first_mean tied_means).
Defined.

Lemma NameToGetter_lower_is_better_witness :
  dict_get "time"%string NameToGetter = Some getTime ∧
  (bool_decide (getTime = getTime) = true ↔ "time"%string = "time"%string).
Proof.
  assert (dict_get "time"%string NameToGetter = Some getTime) as Hget by reflexivity.
  split; [exact Hget|].
  exact (NameToGetter_lower_is_better "time" getTime Hget).
Defined.

Lemma run_to_file :
  MainScenario.run MainScenario.to_file
  = ((MainScenario.run MainScenario.to_file).1, None).
Proof. vm_compute. reflexivity. Qed.

Lemma run_quiet_to_screen :
  MainScenario.run MainScenario.quiet_to_screen
  = ((MainScenario.run MainScenario.quiet_to_screen).1, None).
Proof. vm_compute. reflexivity. Qed.

Lemma main_trace_witness :
  MainScenario.run MainScenario.to_file
  = ((MainScenario.run MainScenario.to_file).1, None) ∧
  (MainScenario.run MainScenario.to_file).1
  = match output_path (output MainScenario.to_file) with
    | Some path =>
        EvOpen path
        :: (EvFileLine <$> lines_of (MainScenario.run MainScenario.to_file).1)
        ++ [EvClose]
    | None => EvPrint <$> lines_of (MainScenario.run MainScenario.to_file).1
    end.
Proof.
  split; [exact run_to_file|].
  exact (main_trace MainScenario.rendData MainScenario.keyOf MainScenario.valueOf
           MainScenario.str MainScenario.pformat_bins MainScenario.pformat_stats
           MainScenario.can_open MainScenario.to_file _ run_to_file).
Defined.

Lemma main_report_lines_witness :
  MainScenario.run MainScenario.to_file
  = ((MainScenario.run MainScenario.to_file).1, None) ∧
  length (lines_of (MainScenario.run MainScenario.to_file).1)
  = (if verbose MainScenario.to_file then 14 else 9)%nat ∧
  ∃ binFunc results r,
    dict_get (bin MainScenario.to_file) NameToGetter = Some binFunc ∧
    MainScenario.rendData (input MainScenario.to_file) = Some results ∧
    r ∈ results ∧
    last (lines_of (MainScenario.run MainScenario.to_file).1)
    = Some (MainScenario.str (MainScenario.keyOf binFunc r)).
Proof.
  split; [exact run_to_file|].
  exact (main_report_lines MainScenario.rendData MainScenario.keyOf
           MainScenario.valueOf MainScenario.str MainScenario.pformat_bins
           MainScenario.pformat_stats MainScenario.can_open MainScenario.to_file
           _ run_to_file).
Defined.

Lemma main_lines_any_destination_witness :
  MainScenario.run MainScenario.to_file
  = ((MainScenario.run MainScenario.to_file).1, None) ∧
  MainScenario.run MainScenario.quiet_to_screen
  = ((MainScenario.run MainScenario.quiet_to_screen).1, None) ∧
  lines_of (MainScenario.run MainScenario.to_file).1
  = lines_of (MainScenario.run MainScenario.quiet_to_screen).1.
Proof.
  split; [exact run_to_file|]. split; [exact run_quiet_to_screen|].
  exact (main_lines_any_destination MainScenario.rendData MainScenario.keyOf
           MainScenario.valueOf MainScenario.str MainScenario.pformat_bins
           MainScenario.pformat_stats MainScenario.can_open
           MainScenario.to_file MainScenario.quiet_to_screen _ _
           eq_refl eq_refl eq_refl eq_refl run_to_file run_quiet_to_screen).
Defined.

Lemma main_verbose_adds_witness :
  output MainScenario.quiet_to_screen = output MainScenario.to_screen ∧
  verbose MainScenario.quiet_to_screen = false ∧
  verbose MainScenario.to_screen = true ∧
  lines_of (MainScenario.run MainScenario.quiet_to_screen).1
    `sublist_of` lines_of (MainScenario.run MainScenario.to_screen).1.
Proof.
  split; [reflexivity|]. split; [reflexivity|]. split; [reflexivity|].
  exact (main_verbose_adds MainScenario.rendData MainScenario.keyOf
           MainScenario.valueOf MainScenario.str MainScenario.pformat_bins
           MainScenario.pformat_stats MainScenario.can_open
           MainScenario.quiet_to_screen MainScenario.to_screen
           eq_refl eq_refl eq_refl eq_refl eq_refl eq_refl).
Defined.
